(** * Thermostat controller (Thermostat.py inside SerialLightControl-Server.py)

    A shallow embedding of the [TemperatureMachine] class and of the refresh
    thread [manageMyDisplay], followed by the properties of the controller
    core: mode cycle, set point clamping, indicator policy, telegram format,
    display alternation, shutdown and failure handling.

    Python integers are unbounded, so they are [Z].  Strings are ASCII
    [string]s.  The hardware (AHT sensor, PWM LEDs, LCD, UART, stdout, wall
    clock) is an environment: every call to it is logged in a trace, and the
    environment decides, per call, whether the call raises. *)

From Stdlib Require Import ZArith List String Ascii Bool Lia DecimalString.
From Stdlib Require Import DecimalPos DecimalZ.
Import ListNotations.

Local Open Scope string_scope.
Local Open Scope Z_scope.

(** ** String helpers: the pieces of Python's [str] used by the script *)

Module Py.

(** [str(z)] for an [int]. *)
Definition str (z : Z) : string := NilZero.string_of_int (Z.to_int z).

Fixpoint spaces (n : nat) : string :=
  match n with
  | O => EmptyString
  | S k => String " " (spaces k)
  end.

(** [s.ljust(n)] and [s.rjust(n)] (the format spec [:>n] on an int is
    [str(z).rjust(n)]). *)
Definition ljust (n : nat) (s : string) : string :=
  s ++ spaces (n - String.length s).

Definition rjust (n : nat) (s : string) : string :=
  spaces (n - String.length s) ++ s.

(** [s[:n]] *)
Definition slice_to (n : nat) (s : string) : string := substring 0 n s.

Definition upper_ascii (c : ascii) : ascii :=
  let n := nat_of_ascii c in
  if (andb (Nat.leb 97 n) (Nat.leb n 122)) then ascii_of_nat (n - 32) else c.

(** [s.upper()] on ASCII text. *)
Fixpoint upper (s : string) : string :=
  match s with
  | EmptyString => EmptyString
  | String c r => String (upper_ascii c) (upper r)
  end.

(** ASCII white space as [str.strip()] sees it: TAB, LF, VT, FF, CR,
    FS, GS, RS, US and SPACE. *)
Definition is_space (c : ascii) : bool :=
  let n := nat_of_ascii c in
  orb (andb (Nat.leb 9 n) (Nat.leb n 13))
      (orb (andb (Nat.leb 28 n) (Nat.leb n 31)) (Nat.eqb n 32)).

Fixpoint lstrip (s : string) : string :=
  match s with
  | EmptyString => EmptyString
  | String c r => if is_space c then lstrip r else s
  end.

Fixpoint rstrip (s : string) : string :=
  match s with
  | EmptyString => EmptyString
  | String c r =>
      match rstrip r with
      | EmptyString => if is_space c then EmptyString else String c EmptyString
      | r' => String c r'
      end
  end.

(** [s.strip()] *)
Definition strip (s : string) : string := rstrip (lstrip s).

End Py.

(** ** Data model *)

(** The three [State]s of [TemperatureMachine]; [off] is [initial=True]. *)
Inductive Mode := off | heat | cool.

Definition Mode_eqb (a b : Mode) : bool :=
  match a, b with
  | off, off | heat, heat | cool, cool => true
  | _, _ => false
  end.

(** [State.id]: the attribute name of the state. *)
Definition state_id (m : Mode) : string :=
  match m with
  | off => "off"
  | heat => "heat"
  | cool => "cool"
  end.

(** The two [PWMLED]s. *)
Inductive Light := Red | Blue.

(** What a [PWMLED] is doing: [off()], [value = 1.0], or [pulse(...)]. *)
Inductive Led := LedOff | LedSolid | LedPulse.

(** The six [DigitalInOut] pins held by [ManagedDisplay]. *)
Inductive Pin := lcd_rs | lcd_en | lcd_d4 | lcd_d5 | lcd_d6 | lcd_d7.

(** Who raised. *)
Inductive Origin := Sensor | Indicator | Display | Serial | Machine.

Definition Origin_eqb (a b : Origin) : bool :=
  match a, b with
  | Sensor, Sensor | Indicator, Indicator | Display, Display
  | Serial, Serial | Machine, Machine => true
  | _, _ => false
  end.

(** A Python exception (all of them are subclasses of [Exception]); [str(e)]
    is [exn_text]. *)
Record Exn := Exc { exn_origin : Origin; exn_text : string }.

(** One interaction with the outside. *)
Inductive Event :=
| EvPrint (s : string)              (* print(s) *)
| EvClock (s : string)              (* datetime.now().strftime(...) gave s *)
| EvSensor (t : Z)                  (* floor(getFahrenheit()) gave t *)
| EvLed (l : Light) (c : Led)       (* a command to a PWMLED *)
| EvLcdClear                        (* lcd.clear() *)
| EvLcdMessage (msg : string)       (* lcd.message = msg *)
| EvLcdDeinit (p : Pin)             (* pin.deinit() *)
| EvUart (msg : string)             (* ser.write(msg.encode("utf-8")) *)
| EvSerClose                        (* ser.close() *)
| EvSleep (secs : Z)                (* sleep(secs) *)
| EvFault (o : Origin) (msg : string). (* the call raised *)

(** The environment.  Calls are numbered by their position in the trace: the
    call number [k], made to collaborator [o], raises with text [msg] when
    [fault o k = Some msg]; otherwise a sensor read returns [sensor k] (the
    floor of the Fahrenheit reading: the float arithmetic of [getFahrenheit]
    is left to the environment) and a clock read returns [clock k] (the
    [strftime] text). *)
Record Env := {
  fault : Origin -> nat -> option string;
  sensor : nat -> Z;
  clock : nat -> string
}.

(** The store: the attributes of [tsm], what the two LEDs are doing, and the
    trace, newest event first. *)
Record World := {
  current_state : Mode;
  setPoint : Z;
  endDisplay : bool;
  redLight : Led;
  blueLight : Led;
  trace : list Event
}.

(** The local variables of [manageMyDisplay]. *)
Record Locals := { counter : Z; altCounter : Z }.

Definition DEBUG : bool := true.

(** [tsm = TemperatureMachine()], both LEDs dark, nothing logged yet. *)
Definition initial_world : World :=
  {| current_state := off; setPoint := 72; endDisplay := false;
     redLight := LedOff; blueLight := LedOff; trace := [] |}.

Definition now (w : World) : nat := List.length (trace w).

Definition log (ev : Event) (w : World) : World :=
  {| current_state := current_state w; setPoint := setPoint w;
     endDisplay := endDisplay w; redLight := redLight w;
     blueLight := blueLight w; trace := ev :: trace w |}.

Definition set_current_state (m : Mode) (w : World) : World :=
  {| current_state := m; setPoint := setPoint w;
     endDisplay := endDisplay w; redLight := redLight w;
     blueLight := blueLight w; trace := trace w |}.

Definition set_setPoint (z : Z) (w : World) : World :=
  {| current_state := current_state w; setPoint := z;
     endDisplay := endDisplay w; redLight := redLight w;
     blueLight := blueLight w; trace := trace w |}.

Definition set_endDisplay (b : bool) (w : World) : World :=
  {| current_state := current_state w; setPoint := setPoint w;
     endDisplay := b; redLight := redLight w;
     blueLight := blueLight w; trace := trace w |}.

Definition set_light (l : Light) (c : Led) (w : World) : World :=
  match l with
  | Red =>
      {| current_state := current_state w; setPoint := setPoint w;
         endDisplay := endDisplay w; redLight := c;
         blueLight := blueLight w; trace := trace w |}
  | Blue =>
      {| current_state := current_state w; setPoint := setPoint w;
         endDisplay := endDisplay w; redLight := redLight w;
         blueLight := c; trace := trace w |}
  end.

(** ** The monad: a store that survives exceptions *)

Inductive Result (A : Type) :=
| Ok (a : A)
| Raise (x : Exn).
Arguments Ok {A} a.
Arguments Raise {A} x.

Definition M (A : Type) : Type := World -> Result A * World.

Definition ret {A} (a : A) : M A := fun w => (Ok a, w).

Definition bind {A B} (m : M A) (f : A -> M B) : M B :=
  fun w =>
    match m w with
    | (Ok a, w') => f a w'
    | (Raise x, w') => (Raise x, w')
    end.

(** [try: m  except Exception as x: h x] *)
Definition try_except {A} (m : M A) (h : Exn -> M A) : M A :=
  fun w =>
    match m w with
    | (Ok a, w') => (Ok a, w')
    | (Raise x, w') => h x w'
    end.

Definition gets {A} (f : World -> A) : M A := fun w => (Ok (f w), w).

Definition modify (f : World -> World) : M unit := fun w => (Ok tt, f w).

Declare Scope thermo_scope.
Delimit Scope thermo_scope with thermo.
Notation "x <- m ;; k" := (bind m (fun x => k))
  (at level 61, m at next level, right associativity) : thermo_scope.
Notation "m ;; k" := (bind m (fun _ => k))
  (at level 61, right associativity) : thermo_scope.
Local Open Scope thermo_scope.

Definition print (s : string) : M unit := modify (log (EvPrint s)).

Definition debug (s : string) : M unit :=
  if DEBUG then print s else ret tt.

Definition sleep (secs : Z) : M unit := modify (log (EvSleep secs)).

(** ** The script, function by function *)

Section Thermostat.

Variable e : Env.

(** A call to a collaborator that may raise: on success [ev] is logged. *)
Definition io (o : Origin) (ev : Event) : M unit :=
  fun w =>
    match fault e o (now w) with
    | Some msg => (Raise (Exc o msg), log (EvFault o msg) w)
    | None => (Ok tt, log ev w)
    end.

(** [floor(self.getFahrenheit())] *)
Definition floor_getFahrenheit : M Z :=
  fun w =>
    match fault e Sensor (now w) with
    | Some msg => (Raise (Exc Sensor msg), log (EvFault Sensor msg) w)
    | None => (Ok (sensor e (now w)), log (EvSensor (sensor e (now w))) w)
    end.

(** [datetime.now().strftime("%m/%d %H:%M:%S")] *)
Definition strftime_now : M string :=
  fun w => (Ok (clock e (now w)), log (EvClock (clock e (now w))) w).

(** [led.off()], [led.value = 1.0], [led.pulse(0.8, 0.8, background=True)] *)
Definition led (l : Light) (c : Led) : M unit :=
  io Indicator (EvLed l c) ;; modify (set_light l c).

(** [ManagedDisplay.updateScreen] *)
Definition updateScreen (message : string) : M unit :=
  io Display EvLcdClear ;;
  io Display (EvLcdMessage message).

(** [ManagedDisplay.cleanupDisplay] *)
Definition cleanupDisplay : M unit :=
  io Display EvLcdClear ;;
  io Display (EvLcdDeinit lcd_rs) ;;
  io Display (EvLcdDeinit lcd_en) ;;
  io Display (EvLcdDeinit lcd_d4) ;;
  io Display (EvLcdDeinit lcd_d5) ;;
  io Display (EvLcdDeinit lcd_d6) ;;
  io Display (EvLcdDeinit lcd_d7).

(** [TemperatureMachine.updateLights] *)
Definition updateLights : M unit :=
  temp <- floor_getFahrenheit ;;
  led Red LedOff ;;
  led Blue LedOff ;;
  st <- gets current_state ;;
  sp <- gets setPoint ;;
  debug ("State: " ++ state_id st) ;;
  debug ("SetPoint: " ++ Py.str sp) ;;
  debug ("Temp: " ++ Py.str temp) ;;
  match st with
  | off =>
      led Red LedOff ;;
      led Blue LedOff
  | heat =>
      (if temp <? sp then led Red LedPulse else led Red LedSolid) ;;
      led Blue LedOff
  | cool =>
      (if temp >? sp then led Blue LedPulse else led Blue LedSolid) ;;
      led Red LedOff
  end.

(** The [on_enter_*] and [on_exit_*] hooks. *)
Definition on_enter_heat : M unit :=
  updateLights ;; debug "* Changing state to HEAT".

Definition on_exit_heat : M unit := led Red LedOff.

Definition on_enter_cool : M unit :=
  updateLights ;; debug "* Changing state to COOL".

Definition on_exit_cool : M unit := led Blue LedOff.

Definition on_enter_off : M unit :=
  led Red LedOff ;; led Blue LedOff ;; debug "* Changing state to OFF".

Definition on_enter (m : Mode) : M unit :=
  match m with
  | off => on_enter_off
  | heat => on_enter_heat
  | cool => on_enter_cool
  end.

Definition on_exit (m : Mode) : M unit :=
  match m with
  | off => ret tt
  | heat => on_exit_heat
  | cool => on_exit_cool
  end.

(** [cycle = off.to(heat) | heat.to(cool) | cool.to(off)]: the event is the
    list of its transitions, source first. *)
Definition cycle_transitions : list (Mode * Mode) :=
  [(off, heat); (heat, cool); (cool, off)].

(** How the state machine library fires an event: the first transition whose
    source is the current state is taken; its hooks run in the order exit of
    the source, change of state, enter of the target.  With no such
    transition the library raises [TransitionNotAllowed].  When an enter
    hook raises, the state stays at the target, as python-statemachine 2.x
    leaves it.  The source pins no version of the library; of the state
    after a hook that raises, the statements below say no more than that it
    is the old one or the target. *)
Fixpoint find_transition (ts : list (Mode * Mode)) (m : Mode) : option Mode :=
  match ts with
  | [] => None
  | (src, dst) :: rest => if Mode_eqb src m then Some dst else find_transition rest m
  end.

Definition fire (ts : list (Mode * Mode)) : M unit :=
  src <- gets current_state ;;
  match find_transition ts src with
  | None => fun w => (Raise (Exc Machine "TransitionNotAllowed"), w)
  | Some dst =>
      on_exit src ;;
      modify (set_current_state dst) ;;
      on_enter dst
  end.

Definition cycle : M unit := fire cycle_transitions.

(** [processTempStateButton] *)
Definition processTempStateButton : M unit :=
  debug "Cycling Temperature State" ;;
  cycle ;;
  updateLights.

(** [processTempIncButton] *)
Definition processTempIncButton : M unit :=
  debug "Increasing Set Point" ;;
  sp <- gets setPoint ;;
  modify (set_setPoint (sp + 1)) ;;
  sp <- gets setPoint ;;
  modify (set_setPoint (Z.min sp 90)) ;;
  updateLights.

(** [processTempDecButton] *)
Definition processTempDecButton : M unit :=
  debug "Decreasing Set Point" ;;
  sp <- gets setPoint ;;
  modify (set_setPoint (sp - 1)) ;;
  sp <- gets setPoint ;;
  modify (set_setPoint (Z.max sp 40)) ;;
  updateLights.

(** [setupSerialOutput] *)
Definition setupSerialOutput : M string :=
  st <- gets current_state ;;
  let state := Py.upper (state_id st) in
  temp <- floor_getFahrenheit ;;
  sp <- gets setPoint ;;
  ret (state ++ "," ++ Py.str temp ++ "," ++ Py.str sp).

(** [_fit16] *)
Definition _fit16 (s : string) : string :=
  let s := Py.slice_to 16 s in
  Py.ljust 16 s.

(** The two renderings of LCD line 2. *)
Definition temp_view (temp_f : Z) : string :=
  "Temp:" ++ Py.rjust 3 (Py.str temp_f) ++ "F".

Definition mode_view (m : Mode) (sp : Z) : string :=
  Py.upper (state_id m) ++ " SP:" ++ Py.rjust 3 (Py.str sp) ++ "F".

Definition newline : string := String (ascii_of_nat 10) EmptyString.

(** Line 2 of one pass and the new [altCounter] (lines 378-392). *)
Definition line2_step (alt : Z) : M (string * Z) :=
  if alt <? 6 then
    temp_f <- floor_getFahrenheit ;;
    ret (_fit16 (temp_view temp_f), alt + 1)
  else
    st <- gets current_state ;;
    sp <- gets setPoint ;;
    let lcd_line_2 := _fit16 (mode_view st sp) in
    let alt := alt + 1 in
    if alt >=? 11 then
      updateLights ;;
      ret (lcd_line_2, 1)
    else ret (lcd_line_2, alt).

(** The UART part of one pass and the new [counter] (lines 400-411). *)
Definition uart_step (cnt : Z) : M Z :=
  if (cnt mod 30) =? 0 then
    out <- setupSerialOutput ;;
    let msg := out ++ newline in
    try_except
      (io Serial (EvUart msg) ;;
       debug ("UART -> " ++ Py.strip msg))
      (fun x => debug ("UART write failed: " ++ exn_text x)) ;;
    ret 1
  else ret (cnt + 1).

(** One pass through the body of [while not self.endDisplay]. *)
Definition loop_body (l : Locals) : M Locals :=
  debug "Processing Display Info..." ;;
  current_time <- strftime_now ;;
  let lcd_line_1 := _fit16 current_time ++ newline in
  r <- line2_step (altCounter l) ;;
  updateScreen (lcd_line_1 ++ fst r) ;;
  debug ("Counter: " ++ Py.str (counter l)) ;;
  c <- uart_step (counter l) ;;
  sleep 1 ;;
  ret {| counter := c; altCounter := snd r |}.

(** Where the loop stands after a number of passes. *)
Inductive LoopStatus :=
| Running (l : Locals)     (* the flag was not seen within the given passes *)
| Finished.                (* the flag was seen and the display torn down *)

(** [while not self.endDisplay: ...] followed by [screen.cleanupDisplay()],
    for at most [fuel] passes. *)
Fixpoint loop (fuel : nat) (l : Locals) : M LoopStatus :=
  stop <- gets endDisplay ;;
  if stop then
    cleanupDisplay ;; ret Finished
  else
    match fuel with
    | O => ret (Running l)
    | S fuel' => l' <- loop_body l ;; loop fuel' l'
    end.

(** [manageMyDisplay] *)
Definition manageMyDisplay (fuel : nat) : M LoopStatus :=
  let l := {| counter := 1; altCounter := 1 |} in
  updateLights ;;
  loop fuel l.

(** The [except KeyboardInterrupt] handler of the main loop, in two halves:
    up to and including raising the flag, and from [sleep(1)] on. *)
Definition interrupt_signal : M unit :=
  print "Cleaning up. Exiting..." ;;
  modify (set_endDisplay true).

Definition interrupt_finish : M unit :=
  sleep 1 ;;
  try_except (io Serial EvSerClose) (fun _ => ret tt).

End Thermostat.

(** ** Vocabulary of the statements *)

(** The three [gpiozero] buttons and their [when_pressed] callbacks. *)
Inductive Button := greenButton | redButton | blueButton.

Definition when_pressed (e : Env) (b : Button) : M unit :=
  match b with
  | greenButton => processTempStateButton e
  | redButton => processTempIncButton e
  | blueButton => processTempDecButton e
  end.

(** A sequence of presses, one callback after the other; a callback that
    raises does not keep the later ones from running. *)
Definition press_all (e : Env) (bs : list Button) (w : World) : World :=
  fold_left (fun w b => snd (when_pressed e b w)) bs w.

(** No collaborator ever raises. *)
Definition healthy (e : Env) : Prop := forall o k, fault e o k = None.

(** At most the UART raises. *)
Definition only_serial_faults (e : Env) : Prop :=
  forall o k, o <> Serial -> fault e o k = None.

Definition is_led (ev : Event) : bool :=
  match ev with EvLed _ _ => true | _ => false end.

Definition is_serial (ev : Event) : bool :=
  match ev with
  | EvUart _ => true
  | EvFault Serial _ => true
  | _ => false
  end.

Definition is_lcd_message (ev : Event) : bool :=
  match ev with EvLcdMessage _ => true | _ => false end.

(** The LED commands, the UART write attempts and the LCD messages among some
    events. *)
Definition led_commands (evs : list Event) : list Event := filter is_led evs.
Definition serial_events (evs : list Event) : list Event := filter is_serial evs.
Definition lcd_messages (evs : list Event) : list Event := filter is_lcd_message evs.

(** The indicator policy in the words of the specification: the instruction
    for the heat channel (red) and for the cool channel (blue). *)
Definition indicator_policy (m : Mode) (temperature setpoint : Z) : Led * Led :=
  match m with
  | off => (LedOff, LedOff)
  | heat => (if temperature <? setpoint then LedPulse else LedSolid, LedOff)
  | cool => (LedOff, if temperature >? setpoint then LedPulse else LedSolid)
  end.

(** The LED commands of one evaluation of the policy, newest first: the two
    of the chosen branch, after the hard stop of both LEDs. *)
Definition policy_commands (m : Mode) (temperature setpoint : Z) : list Event :=
  match m with
  | off => [EvLed Blue LedOff; EvLed Red LedOff]
  | heat => [EvLed Blue LedOff;
             EvLed Red (fst (indicator_policy heat temperature setpoint))]
  | cool => [EvLed Red LedOff;
             EvLed Blue (snd (indicator_policy cool temperature setpoint))]
  end ++ [EvLed Blue LedOff; EvLed Red LedOff].

(** The mode names of the wire format. *)
Definition MODE (m : Mode) : string :=
  match m with
  | off => "OFF"
  | heat => "HEAT"
  | cool => "COOL"
  end.

(** The telegram in the words of the specification. *)
Definition telegram (m : Mode) (temperature setpoint : Z) : string :=
  MODE m ++ "," ++ Py.str temperature ++ "," ++ Py.str setpoint ++ newline.

(** The attributes of [tsm]. *)
Definition machine (w : World) : Mode * Z * bool :=
  (current_state w, setPoint w, endDisplay w).

(** A computation that leaves an observation [f] of the store alone, whether
    it returns or raises. *)
Definition keeps {A B} (f : World -> B) (m : M A) : Prop :=
  forall w, f (snd (m w)) = f w.

(** The locals after a pass that returns. *)
Definition next_alt (alt : Z) : Z :=
  if alt <? 6 then alt + 1 else if alt + 1 >=? 11 then 1 else alt + 1.

Definition next_counter (cnt : Z) : Z :=
  if cnt mod 30 =? 0 then 1 else cnt + 1.

Definition next_locals (l : Locals) : Locals :=
  {| counter := next_counter (counter l); altCounter := next_alt (altCounter l) |}.

(** The locals at the start of pass number [k + 1]. *)
Definition locals_after (k : nat) : Locals :=
  Nat.iter k next_locals {| counter := 1; altCounter := 1 |}.

(** Environments and stores used as concrete inputs. *)
Definition env_calm (t : Z) : Env :=
  {| fault := fun _ _ => None; sensor := fun _ => t;
     clock := fun _ => "12/07 17:43:26" |}.

(** The call number [k] raises, whoever it is made to. *)
Definition env_fault_at (k : nat) (t : Z) : Env :=
  {| fault := fun _ j => if Nat.eqb j k then Some "I/O error" else None;
     sensor := fun _ => t;
     clock := fun _ => "12/07 17:43:26" |}.

(** Only the UART raises, on every write. *)
Definition env_uart_down (t : Z) : Env :=
  {| fault := fun o _ => if Origin_eqb o Serial then Some "write failed" else None;
     sensor := fun _ => t;
     clock := fun _ => "12/07 17:43:26" |}.

Definition world_at (m : Mode) (sp : Z) : World :=
  {| current_state := m; setPoint := sp; endDisplay := false;
     redLight := LedOff; blueLight := LedOff; trace := [] |}.

(** ** Specification vocabulary: frames, runs and traces *)

(** An observation of the store that neither logging nor the LEDs touch. *)
Definition passive {B} (f : World -> B) : Prop :=
  (forall ev w, f (log ev w) = f w) /\
  (forall l c w, f (set_light l c w) = f w).

(** The target of [cycle] from each state. *)
Definition cycle_target (m : Mode) : Mode :=
  match m with
  | off => heat
  | heat => cool
  | cool => off
  end.

(** [m] returns from every store. *)
Definition returns {A} (m : M A) : Prop :=
  forall w, exists a, fst (m w) = Ok a.

(** Everything [updateLights] does when nothing raises, newest first. *)
Definition updateLights_events (m : Mode) (t sp : Z) : list Event :=
  firstn 2 (policy_commands m t sp) ++
  [EvPrint ("Temp: " ++ Py.str t); EvPrint ("SetPoint: " ++ Py.str sp);
   EvPrint ("State: " ++ state_id m);
   EvLed Blue LedOff; EvLed Red LedOff; EvSensor t].

(** What [line2_step] shows and does, by call number [k], mode and set
    point. *)
Definition line2_text (e : Env) (alt : Z) (m : Mode) (sp : Z) (k : nat) : string :=
  if alt <? 6 then _fit16 (temp_view (sensor e k)) else _fit16 (mode_view m sp).

Definition line2_events (e : Env) (alt : Z) (m : Mode) (sp : Z) (k : nat)
  : list Event :=
  if alt <? 6 then [EvSensor (sensor e k)]
  else if alt + 1 >=? 11 then updateLights_events m (sensor e k) sp
  else [].

Definition line2_lights (e : Env) (alt : Z) (m : Mode) (sp : Z) (k : nat)
  (before : Led * Led) : Led * Led :=
  if alt <? 6 then before
  else if alt + 1 >=? 11 then indicator_policy m (sensor e k) sp
  else before.

(** What [uart_step] does, newest first. *)
Definition uart_events (e : Env) (cnt : Z) (m : Mode) (sp : Z) (k : nat)
  : list Event :=
  if cnt mod 30 =? 0 then
    let msg := telegram m (sensor e k) sp in
    match fault e Serial (S k) with
    | None => [EvPrint ("UART -> " ++ Py.strip msg); EvUart msg;
               EvSensor (sensor e k)]
    | Some x => [EvPrint ("UART write failed: " ++ x); EvFault Serial x;
                 EvSensor (sensor e k)]
    end
  else [].

(** What a whole pass does, newest first. *)
Definition tick_events (e : Env) (l : Locals) (m : Mode) (sp : Z) (k : nat)
  : list Event :=
  let evs2 := line2_events e (altCounter l) m sp (2 + k) in
  let k3 := (List.length evs2 + (5 + k))%nat in
  (EvSleep 1 :: uart_events e (counter l) m sp k3) ++
  [EvPrint ("Counter: " ++ Py.str (counter l));
   EvLcdMessage ((_fit16 (clock e (S k)) ++ newline) ++
                 line2_text e (altCounter l) m sp (2 + k));
   EvLcdClear] ++
  evs2 ++
  [EvClock (clock e (S k)); EvPrint "Processing Display Info..."].

(** The call number of the sensor read of [setupSerialOutput] in a pass
    that starts at call number [k]. *)
Definition uart_call (e : Env) (l : Locals) (m : Mode) (sp : Z) (k : nat) : nat :=
  (List.length (line2_events e (altCounter l) m sp (2 + k)) + (5 + k))%nat.

(** No white space in a string. *)
Fixpoint no_space (s : string) : bool :=
  match s with
  | EmptyString => true
  | String c r => negb (Py.is_space c) && no_space r
  end.

Definition is_teardown (ev : Event) : bool :=
  match ev with
  | EvLcdClear | EvLcdDeinit _ | EvFault Display _ => true
  | _ => false
  end.

(** The events of a display teardown that does not raise, newest first. *)
Definition teardown_events : list Event :=
  [EvLcdDeinit lcd_d7; EvLcdDeinit lcd_d6; EvLcdDeinit lcd_d5;
   EvLcdDeinit lcd_d4; EvLcdDeinit lcd_en; EvLcdDeinit lcd_rs; EvLcdClear].

(** A call that raised, other than a UART call. *)
Definition is_foreign_fault (ev : Event) : bool :=
  match ev with
  | EvFault Serial _ => false
  | EvFault _ _ => true
  | _ => false
  end.

Definition foreign_faults (evs : list Event) : list Event :=
  filter is_foreign_fault evs.

(** [m] lets every failure that is not a UART failure out, as the last thing
    it does, and raises for no other reason. *)
Definition escapes {A} (m : M A) : Prop :=
  forall w,
    exists evs,
      trace (snd (m w)) = (evs ++ trace w)%list /\
      match fst (m w) with
      | Ok _ => foreign_faults evs = []
      | Raise x =>
          exn_origin x <> Serial /\
          exists evs',
            evs = EvFault (exn_origin x) (exn_text x) :: evs' /\
            foreign_faults evs' = []
      end.

(** ** Vocabulary of the further properties *)

(** What one press does to the set point. *)
Definition adjust (sp : Z) (b : Button) : Z :=
  match b with
  | greenButton => sp
  | redButton => Z.min (sp + 1) 90
  | blueButton => Z.max (sp - 1) 40
  end.

Definition Button_eq_dec (a b : Button) : {a = b} + {a <> b}.
Proof. decide equality. Defined.

(** What the two LEDs are doing. *)
Definition lights (w : World) : Led * Led := (redLight w, blueLight w).

Definition lit (c : Led) : bool :=
  match c with LedOff => false | _ => true end.

(** The lit LED names the mode: none in Off, red only in Heat, blue only in
    Cool. *)
Definition lights_match_mode (w : World) : bool :=
  match current_state w with
  | off => negb (lit (redLight w)) && negb (lit (blueLight w))
  | heat => lit (redLight w) && negb (lit (blueLight w))
  | cool => negb (lit (redLight w)) && lit (blueLight w)
  end.

(** The LEDs after some events (newest first), replayed from [init]. *)
Definition apply_led (ev : Event) (l : Led * Led) : Led * Led :=
  match ev with
  | EvLed Red c => (c, snd l)
  | EvLed Blue c => (fst l, c)
  | _ => l
  end.

Fixpoint lights_at (evs : list Event) (init : Led * Led) : Led * Led :=
  match evs with
  | [] => init
  | ev :: rest => apply_led ev (lights_at rest init)
  end.

(** At least one of the two LEDs is off. *)
Definition one_dark (l : Led * Led) : bool :=
  negb (lit (fst l)) || negb (lit (snd l)).

(** At least one LED is off at the start and after each of the events. *)
Fixpoint always_one_dark (evs : list Event) (init : Led * Led) : bool :=
  match evs with
  | [] => one_dark init
  | ev :: rest =>
      one_dark (lights_at (ev :: rest) init) && always_one_dark rest init
  end.

(** From LEDs that satisfy [P], [m] only adds events to the trace, the LEDs
    follow the LED commands among them, one LED is off throughout, and if
    [m] returns the LEDs satisfy [Q]. *)
Definition led_triple {A} (P : Led * Led -> Prop) (m : M A)
  (Q : Led * Led -> Prop) : Prop :=
  forall w,
    P (lights w) ->
    exists evs,
      trace (snd (m w)) = (evs ++ trace w)%list /\
      lights_at evs (lights w) = lights (snd (m w)) /\
      always_one_dark evs (lights w) = true /\
      (forall a, fst (m w) = Ok a -> Q (lights (snd (m w)))).

(** The integers [lo], [lo + 1], ..., [lo + n - 1]. *)
Definition z_range (lo : Z) (n : nat) : list Z :=
  map (fun i => lo + Z.of_nat i) (seq 0 n).

(** [c in s] *)
Fixpoint has_char (c : ascii) (s : string) : bool :=
  match s with
  | EmptyString => false
  | String x r => Ascii.eqb x c || has_char c r
  end.

(** What is known of the LEDs at a program point: one of them is off, the
    red one is, the blue one is, or both are. *)
Inductive Dark := AnyDark | RedOff | BlueOff | BothOff.

Definition sat (d : Dark) (l : Led * Led) : Prop :=
  match d with
  | AnyDark => one_dark l = true
  | RedOff => fst l = LedOff
  | BlueOff => snd l = LedOff
  | BothOff => l = (LedOff, LedOff)
  end.

(** What is known after a command to one LED, when the command is safe:
    switching off is always safe, switching on only while the other LED is
    known to be off. *)
Definition step_dark (l : Light) (c : Led) (d : Dark) : option Dark :=
  match l, c, d with
  | Red, LedOff, (AnyDark | RedOff) => Some RedOff
  | Red, LedOff, (BlueOff | BothOff) => Some BothOff
  | Blue, LedOff, (AnyDark | BlueOff) => Some BlueOff
  | Blue, LedOff, (RedOff | BothOff) => Some BothOff
  | Red, _, (BlueOff | BothOff) => Some BlueOff
  | Blue, _, (RedOff | BothOff) => Some RedOff
  | _, _, _ => None
  end.

(** [m] sends no command to the LEDs. *)
Definition quiet {A} (m : M A) : Prop :=
  forall w,
    lights (snd (m w)) = lights w /\
    exists evs,
      trace (snd (m w)) = (evs ++ trace w)%list /\ led_commands evs = [].

(** ** The serial light server (the first script of the file)

    The loop of SerialLightControl-Server.py: one line is read from the
    serial port per pass, normalised, and acted upon through GPIO line 18. *)

Module LightServer.

(** [c.lower()] and [s.lower()] on ASCII text. *)
Definition lower_ascii (c : ascii) : ascii :=
  let n := nat_of_ascii c in
  if (andb (Nat.leb 65 n) (Nat.leb n 90)) then ascii_of_nat (n + 32) else c.

Fixpoint lower (s : string) : string :=
  match s with
  | EmptyString => EmptyString
  | String c r => String (lower_ascii c) (lower r)
  end.

(** Every byte is below 128. *)
Fixpoint is_ascii (s : string) : bool :=
  match s with
  | EmptyString => true
  | String c r => Nat.ltb (nat_of_ascii c) 128 && is_ascii r
  end.

(** Only white space. *)
Fixpoint all_space (s : string) : bool :=
  match s with
  | EmptyString => true
  | String c r => Py.is_space c && all_space r
  end.

(** A call to [RPi.GPIO]. *)
Inductive GpioCall :=
| Output (high : bool)     (* GPIO.output(18, high) *)
| Cleanup.                 (* GPIO.cleanup() *)

(** The loop variable, the level last written to line 18, whether the GPIO
    lines were released, and the calls made, newest first. *)
Record Server := {
  repeat : bool;
  pin18 : bool;
  cleaned : bool;
  calls : list GpioCall
}.

(** What one [ser.readline()] brings: the bytes of a line (none after the
    one second timeout), Ctrl-C while waiting, or a failure of the port. *)
Inductive Input :=
| Line (raw : string)
| KeyboardInterrupt
| SerialError.

(** How the loop stands when the inputs are used up. *)
Inductive Status :=
| Waiting      (* still in the loop, blocked on the next line *)
| Stopped      (* the loop was left with [repeat = False] *)
| Crashed.     (* an exception other than KeyboardInterrupt left the loop *)

Definition output (high : bool) (s : Server) : Server :=
  {| repeat := repeat s; pin18 := high; cleaned := cleaned s;
     calls := Output high :: calls s |}.

Definition cleanup (s : Server) : Server :=
  {| repeat := repeat s; pin18 := pin18 s; cleaned := true;
     calls := Cleanup :: calls s |}.

Definition set_repeat (b : bool) (s : Server) : Server :=
  {| repeat := b; pin18 := pin18 s; cleaned := cleaned s; calls := calls s |}.

(** The state after [GPIO.setup(18, GPIO.OUT)] and [repeat = True], with the
    line at [level]. *)
Definition started (level : bool) : Server :=
  {| repeat := true; pin18 := level; cleaned := false; calls := [] |}.

Section Normalise.

(** [bytes.decode("utf-8", errors="ignore").lower().strip()], as the Python
    library does it; on ASCII bytes it is [normalise_ascii] below. *)
Variable normalise : string -> string.

(** The [match command] statement after the test for the empty command. *)
Definition dispatch (command : string) (s : Server) : Server :=
  if (command =? "off")%string then output false s
  else if (command =? "on")%string then output true s
  else if ((command =? "exit") || (command =? "quit"))%string then
    set_repeat false (cleanup (output false s))
  else s.

(** One pass through the body of [while repeat]; [None] when an exception
    leaves the loop. *)
Definition pass (i : Input) (s : Server) : option Server :=
  match i with
  | Line raw =>
      let command := normalise raw in
      if (command =? "")%string then Some s
      else Some (dispatch command s)
  | KeyboardInterrupt => Some (set_repeat false (cleanup (output false s)))
  | SerialError => None
  end.

(** [while repeat: ...] over the inputs that arrive. *)
Fixpoint serve (inputs : list Input) (s : Server) : Status * Server :=
  if repeat s then
    match inputs with
    | [] => (Waiting, s)
    | i :: rest =>
        match pass i s with
        | Some s' => serve rest s'
        | None => (Crashed, s)
        end
    end
  else (Stopped, s).

(** The level the lines ask for: that of the last [on] or [off] among them,
    [level] if there is none. *)
Definition asked_level (inputs : list Input) (level : bool) : bool :=
  fold_left
    (fun lvl i =>
       match i with
       | Line raw =>
           if (normalise raw =? "on")%string then true
           else if (normalise raw =? "off")%string then false
           else lvl
       | _ => lvl
       end) inputs level.

End Normalise.

(** The normalisation on ASCII bytes, where decoding changes nothing. *)
Definition normalise_ascii (raw : string) : string := Py.strip (lower raw).

(** A normalisation that is the Python one on ASCII lines. *)
Definition python_normalise (normalise : string -> string) : Prop :=
  forall raw, is_ascii raw = true -> normalise raw = normalise_ascii raw.

End LightServer.

(** What the LEDs can tell of the mode: the mode and the two LEDs. *)
Definition Obs : Type := (Mode * (Led * Led))%type.

Definition obs (w : World) : Obs := (current_state w, lights w).

Definition Led_eqb (a b : Led) : bool :=
  match a, b with
  | LedOff, LedOff | LedSolid, LedSolid | LedPulse, LedPulse => true
  | _, _ => false
  end.

Definition Obs_eqb (a b : Obs) : bool :=
  Mode_eqb (fst a) (fst b) &&
  (Led_eqb (fst (snd a)) (fst (snd b)) && Led_eqb (snd (snd a)) (snd (snd b))).

(** The 27 observations. *)
Definition all_obs : list Obs :=
  list_prod [off; heat; cool]
    (list_prod [LedOff; LedSolid; LedPulse] [LedOff; LedSolid; LedPulse]).

(** A lit LED belongs to the mode: red is lit in Heat only, blue in Cool
    only. *)
Definition lit_belongs (o : Obs) : bool :=
  (negb (lit (fst (snd o))) || Mode_eqb (fst o) heat) &&
  (negb (lit (snd (snd o))) || Mode_eqb (fst o) cool).

(** Sets of observations, as lists. *)
Definition inb (P : list Obs) (o : Obs) : bool := existsb (Obs_eqb o) P.

Definition subset (P Q : list Obs) : bool := forallb (inb Q) P.

Definition belonging : list Obs := filter lit_belongs all_obs.

(** From an observation in [P], [m] ends in [Q] when it returns and in [E]
    when it raises. *)
Definition ends_in {A} (P : list Obs) (m : M A) (Q E : list Obs) : Prop :=
  forall w,
    inb P (obs w) = true ->
    match fst (m w) with
    | Ok _ => inb Q (obs (snd (m w))) = true
    | Raise _ => inb E (obs (snd (m w))) = true
    end.

(** ** Line 2 of the display in the words of the specification *)

(** [n] spaces. *)
Definition blanks (n : nat) : string :=
  string_of_list_ascii (List.repeat " "%char n).

(** An integer right-justified in a field of three characters. *)
Definition right_justified_3 (z : Z) : string :=
  blanks (3 - String.length (Py.str z)) ++ Py.str z.

(** The current-temperature view: label and integer temperature. *)
Definition current_temperature_view (t : Z) : string :=
  "Temp:" ++ right_justified_3 t ++ "F".

(** The mode-and-setpoint view: upper case mode name, label and set point. *)
Definition mode_and_setpoint_view (m : Mode) (sp : Z) : string :=
  MODE m ++ " SP:" ++ right_justified_3 sp ++ "F".

(** A rendering truncated or padded to exactly 16 characters. *)
Definition truncated_or_padded_16 (s : string) : string :=
  if Nat.leb (String.length s) 16 then s ++ blanks (16 - String.length s)
  else substring 0 16 s.

(** The events newer than the newest LCD message of a trace (all of them if
    there is none). *)
Fixpoint since_lcd_message (evs : list Event) : list Event :=
  match evs with
  | [] => []
  | EvLcdMessage _ :: _ => []
  | ev :: rest => ev :: since_lcd_message rest
  end.

(** The events that a run added to the trace of [w]. *)
Definition events_since (w w' : World) : list Event :=
  firstn (now w' - now w) (trace w').

(** ** Lemmas on the monad and on the frame of each function *)

Lemma passive_machine : passive machine.
Proof. split; [reflexivity | intros [] c w; reflexivity]. Qed.

Lemma passive_setPoint : passive setPoint.
Proof. split; [reflexivity | intros [] c w; reflexivity]. Qed.

Lemma passive_current_state : passive current_state.
Proof. split; [reflexivity | intros [] c w; reflexivity]. Qed.

Lemma keeps_ret {A B} (f : World -> B) (a : A) : keeps f (ret a).
Proof. intro w. reflexivity. Qed.

Lemma keeps_bind {A B C} (f : World -> C) (m : M A) (k : A -> M B) :
  keeps f m -> (forall a, keeps f (k a)) -> keeps f (bind m k).
Proof.
  intros Hm Hk w. unfold bind.
  specialize (Hm w). destruct (m w) as [[a|x] w1]; simpl in *.
  - rewrite Hk. exact Hm.
  - exact Hm.
Qed.

Lemma keeps_try {A B} (f : World -> B) (m : M A) (h : Exn -> M A) :
  keeps f m -> (forall x, keeps f (h x)) -> keeps f (try_except m h).
Proof.
  intros Hm Hh w. unfold try_except.
  specialize (Hm w). destruct (m w) as [[a|x] w1]; simpl in *.
  - exact Hm.
  - rewrite Hh. exact Hm.
Qed.

Lemma keeps_gets {A B} (f : World -> B) (g : World -> A) : keeps f (gets g).
Proof. intro w. reflexivity. Qed.

Lemma keeps_if {A B} (f : World -> B) (c : bool) (m1 m2 : M A) :
  keeps f m1 -> keeps f m2 -> keeps f (if c then m1 else m2).
Proof. destruct c; auto. Qed.

Section Frame.

Context {B : Type} (f : World -> B) (Hf : passive f).

Lemma keeps_print s : keeps f (print s).
Proof. intro w. apply Hf. Qed.

Lemma keeps_debug s : keeps f (debug s).
Proof. intro w. apply Hf. Qed.

Lemma keeps_sleep z : keeps f (sleep z).
Proof. intro w. apply Hf. Qed.

Lemma keeps_io e o ev : keeps f (io e o ev).
Proof. intro w. unfold io. destruct (fault e o (now w)); apply Hf. Qed.

Lemma keeps_sensor e : keeps f (floor_getFahrenheit e).
Proof.
  intro w. unfold floor_getFahrenheit.
  destruct (fault e Sensor (now w)); apply Hf.
Qed.

Lemma keeps_clock e : keeps f (strftime_now e).
Proof. intro w. apply Hf. Qed.

Lemma keeps_led e l c : keeps f (led e l c).
Proof.
  unfold led. apply keeps_bind; [apply keeps_io|].
  intros _ w. apply Hf.
Qed.

End Frame.

Create HintDb frame.
#[local] Hint Resolve passive_machine passive_setPoint passive_current_state
  keeps_ret keeps_gets keeps_print keeps_debug keeps_sleep keeps_io
  keeps_sensor keeps_clock keeps_led : frame.

Ltac frame_step :=
  first
    [ solve [auto with frame]
    | apply keeps_bind; [|intro]
    | apply keeps_try; [|intro]
    | apply keeps_if ].

Lemma keeps_updateLights {B} (f : World -> B) e :
  passive f -> keeps f (updateLights e).
Proof.
  intro Hf. unfold updateLights.
  repeat frame_step.
  match goal with
  | |- keeps _ (match ?st with off => _ | _ => _ end) => destruct st
  end; repeat frame_step.
Qed.

Lemma keeps_updateScreen {B} (f : World -> B) e msg :
  passive f -> keeps f (updateScreen e msg).
Proof. intro Hf. unfold updateScreen. repeat frame_step. Qed.

Lemma keeps_cleanupDisplay {B} (f : World -> B) e :
  passive f -> keeps f (cleanupDisplay e).
Proof. intro Hf. unfold cleanupDisplay. repeat frame_step. Qed.

Lemma keeps_setupSerialOutput {B} (f : World -> B) e :
  passive f -> keeps f (setupSerialOutput e).
Proof. intro Hf. unfold setupSerialOutput. repeat frame_step. Qed.

#[local] Hint Resolve keeps_updateLights keeps_updateScreen
  keeps_cleanupDisplay keeps_setupSerialOutput : frame.

Lemma keeps_line2_step {B} (f : World -> B) e alt :
  passive f -> keeps f (line2_step e alt).
Proof. intro Hf. unfold line2_step. repeat frame_step. Qed.

Lemma keeps_uart_step {B} (f : World -> B) e cnt :
  passive f -> keeps f (uart_step e cnt).
Proof. intro Hf. unfold uart_step. repeat frame_step. Qed.

#[local] Hint Resolve keeps_line2_step keeps_uart_step : frame.

Lemma keeps_loop_body {B} (f : World -> B) e l :
  passive f -> keeps f (loop_body e l).
Proof. intro Hf. unfold loop_body. repeat frame_step. Qed.

#[local] Hint Resolve keeps_loop_body : frame.

Lemma machine_fields w w' :
  machine w' = machine w ->
  current_state w' = current_state w /\ setPoint w' = setPoint w /\
  endDisplay w' = endDisplay w.
Proof. unfold machine. intro H. inversion H. auto. Qed.

(** ** Set point adjustment *)

Lemma inc_world e w :
  processTempIncButton e w =
  updateLights e
    (set_setPoint (Z.min (setPoint w + 1) 90)
       (set_setPoint (setPoint w + 1) (log (EvPrint "Increasing Set Point") w))).
Proof. reflexivity. Qed.

Lemma dec_world e w :
  processTempDecButton e w =
  updateLights e
    (set_setPoint (Z.max (setPoint w - 1) 40)
       (set_setPoint (setPoint w - 1) (log (EvPrint "Decreasing Set Point") w))).
Proof. reflexivity. Qed.

Lemma inc_setPoint e w :
  setPoint (snd (processTempIncButton e w)) = Z.min (setPoint w + 1) 90.
Proof.
  rewrite inc_world, (keeps_updateLights setPoint e passive_setPoint).
  reflexivity.
Qed.

Lemma dec_setPoint e w :
  setPoint (snd (processTempDecButton e w)) = Z.max (setPoint w - 1) 40.
Proof.
  rewrite dec_world, (keeps_updateLights setPoint e passive_setPoint).
  reflexivity.
Qed.

Lemma keeps_on_exit {B} (f : World -> B) e m :
  passive f -> keeps f (on_exit e m).
Proof.
  intro Hf. destruct m; unfold on_exit, on_exit_heat, on_exit_cool;
    repeat frame_step.
Qed.

Lemma keeps_on_enter {B} (f : World -> B) e m :
  passive f -> keeps f (on_enter e m).
Proof.
  intro Hf.
  destruct m; unfold on_enter, on_enter_off, on_enter_heat, on_enter_cool;
    repeat frame_step.
Qed.

#[local] Hint Resolve keeps_on_exit keeps_on_enter : frame.

Lemma keeps_setPoint_state_button e :
  keeps setPoint (processTempStateButton e).
Proof.
  unfold processTempStateButton, cycle, fire.
  repeat frame_step.
  destruct (find_transition cycle_transitions a0).
  - repeat frame_step. intro w. reflexivity.
  - intro w. reflexivity.
Qed.

Lemma press_setPoint_range e b w :
  40 <= setPoint w <= 90 ->
  40 <= setPoint (snd (when_pressed e b w)) <= 90.
Proof.
  intro H. destruct b; simpl.
  - rewrite keeps_setPoint_state_button. exact H.
  - rewrite inc_setPoint. lia.
  - rewrite dec_setPoint. lia.
Qed.

Lemma press_all_setPoint_range e bs :
  forall w, 40 <= setPoint w <= 90 -> 40 <= setPoint (press_all e bs w) <= 90.
Proof.
  induction bs as [|b bs IH]; intros w H; simpl.
  - exact H.
  - apply IH. apply press_setPoint_range. exact H.
Qed.

(** ** The indicator policy, run *)

(** Symbolic execution of a computation, rewriting with what is known of the
    environment. *)
Ltac exec_step :=
  cbv beta iota zeta delta
    [bind try_except ret gets modify print debug DEBUG sleep io led
     floor_getFahrenheit strftime_now now log set_light set_current_state
     set_setPoint set_endDisplay];
  cbn [fst snd List.length trace current_state setPoint endDisplay
       redLight blueLight exn_text exn_origin].

Ltac exec := unfold now in *; repeat exec_step.

Ltac exec_with H := unfold now in *; repeat (exec_step; rewrite ?H).

Lemma updateLights_ok e w :
  fault e Sensor (now w) = None ->
  (forall k, fault e Indicator k = None) ->
  exists w',
    updateLights e w = (Ok tt, w') /\
    machine w' = machine w /\
    (redLight w', blueLight w') =
      indicator_policy (current_state w) (sensor e (now w)) (setPoint w) /\
    trace w' =
      (updateLights_events (current_state w) (sensor e (now w)) (setPoint w)
        ++ trace w)%list.
Proof.
  intros Hs Hi. unfold updateLights.
  exec_with Hs. exec_with Hi.
  destruct (current_state w) eqn:Hm.
  - exec_with Hi.
    eexists; split; [reflexivity|].
    unfold machine; simpl; rewrite ?Hm; auto.
  - destruct (sensor e (List.length (trace w)) <? setPoint w) eqn:Hc;
      exec_with Hi;
      (eexists; split; [reflexivity|]);
      unfold machine, updateLights_events; simpl; rewrite ?Hm, ?Hc; auto.
  - destruct (sensor e (List.length (trace w)) >? setPoint w) eqn:Hc;
      exec_with Hi;
      (eexists; split; [reflexivity|]);
      unfold machine, updateLights_events; simpl; rewrite ?Hm, ?Hc; auto.
Qed.

(** Case analysis on the next call that may raise, or on the next test. *)
Ltac case_step :=
  match goal with
  | |- context [match fault ?e ?o ?k with _ => _ end] =>
      destruct (fault e o k) eqn:?
  | |- context [if (?a <? ?b) then _ else _] => destruct (a <? b) eqn:?
  | |- context [if (?a >? ?b) then _ else _] => destruct (a >? b) eqn:?
  | |- context [if (?a >=? ?b) then _ else _] => destruct (a >=? b) eqn:?
  | |- context [if (?a =? ?b) then _ else _] => destruct (a =? b) eqn:?
  end.

Ltac exec_all := exec; repeat (case_step; exec).

(** ** The mode cycle *)

Lemma find_transition_cycle m :
  find_transition cycle_transitions m = Some (cycle_target m).
Proof. destruct m; reflexivity. Qed.

Lemma bind_run {A B} (m : M A) (k : A -> M B) w :
  bind m k w =
  match m w with
  | (Ok a, w') => k a w'
  | (Raise x, w') => (Raise x, w')
  end.
Proof. reflexivity. Qed.

Lemma cycle_step e w :
  let r := fst (cycle e w) in
  let w' := snd (cycle e w) in
  (current_state w' = current_state w \/
   current_state w' = cycle_target (current_state w)) /\
  (r = Ok tt -> current_state w' = cycle_target (current_state w)).
Proof.
  unfold cycle, fire. rewrite bind_run. cbn [gets].
  rewrite find_transition_cycle, bind_run.
  pose proof (keeps_on_exit current_state e (current_state w)
                passive_current_state w) as K1.
  destruct (on_exit e (current_state w) w) as [[[]|x] w1]; cbn [snd] in K1.
  - rewrite bind_run. cbn [modify].
    pose proof (keeps_on_enter current_state e (cycle_target (current_state w))
                  passive_current_state
                  (set_current_state (cycle_target (current_state w)) w1)) as K2.
    cbn [set_current_state current_state] in K2.
    cbn [fst snd]. rewrite K2. auto.
  - cbn [fst snd]. split; [auto | discriminate].
Qed.

Lemma state_button_step e w :
  let r := fst (processTempStateButton e w) in
  let w' := snd (processTempStateButton e w) in
  (current_state w' = current_state w \/
   current_state w' = cycle_target (current_state w)) /\
  (r = Ok tt -> current_state w' = cycle_target (current_state w)).
Proof.
  unfold processTempStateButton. rewrite bind_run.
  cbv beta iota delta [debug DEBUG print modify]. rewrite bind_run.
  pose proof (cycle_step e (log (EvPrint "Cycling Temperature State") w)) as K.
  cbv zeta in K. cbn [log current_state] in K.
  destruct (cycle e (log (EvPrint "Cycling Temperature State") w))
    as [[[]|x] w1]; cbn [fst snd] in K |- *.
  - rewrite (keeps_updateLights current_state e passive_current_state w1).
    destruct K as [_ K]. rewrite (K eq_refl). auto.
  - destruct K as [K _]. split; [exact K | discriminate].
Qed.

(** ** Computations that return *)

Lemma returns_ret {A} (a : A) : returns (ret a).
Proof. intro w. exists a. reflexivity. Qed.

Lemma returns_gets {A} (g : World -> A) : returns (gets g).
Proof. intro w. exists (g w). reflexivity. Qed.

Lemma returns_modify g : returns (modify g).
Proof. intro w. exists tt. reflexivity. Qed.

Lemma returns_debug s : returns (debug s).
Proof. intro w. exists tt. reflexivity. Qed.

Lemma returns_bind {A B} (m : M A) (k : A -> M B) :
  returns m -> (forall a, returns (k a)) -> returns (bind m k).
Proof.
  intros Hm Hk w. rewrite bind_run.
  destruct (Hm w) as [a Ha]. destruct (m w) as [r w1]. cbn [fst] in Ha.
  subst r. apply Hk.
Qed.

Lemma returns_if {A} (c : bool) (m1 m2 : M A) :
  returns m1 -> returns m2 -> returns (if c then m1 else m2).
Proof. destruct c; auto. Qed.

Lemma returns_io e o ev :
  (forall k, fault e o k = None) -> returns (io e o ev).
Proof. intros H w. exists tt. unfold io. rewrite H. reflexivity. Qed.

Lemma returns_sensor e :
  (forall k, fault e Sensor k = None) -> returns (floor_getFahrenheit e).
Proof.
  intros H w. exists (sensor e (now w)). unfold floor_getFahrenheit.
  rewrite H. reflexivity.
Qed.

Lemma returns_led e l c :
  (forall k, fault e Indicator k = None) -> returns (led e l c).
Proof.
  intro H. unfold led. apply returns_bind.
  - apply returns_io. exact H.
  - intros _. apply returns_modify.
Qed.

Create HintDb returns.
#[local] Hint Resolve returns_ret returns_gets returns_modify returns_debug
  returns_io returns_sensor returns_led : returns.

Ltac returns_step :=
  first
    [ solve [auto with returns]
    | apply returns_bind; [|intro]
    | apply returns_if ].

Lemma returns_updateLights e :
  (forall k, fault e Sensor k = None) ->
  (forall k, fault e Indicator k = None) ->
  returns (updateLights e).
Proof.
  intros Hs Hi. unfold updateLights. repeat returns_step.
  match goal with
  | |- returns (match ?st with off => _ | _ => _ end) => destruct st
  end; repeat returns_step.
Qed.

#[local] Hint Resolve returns_updateLights : returns.

Lemma returns_state_button e :
  (forall k, fault e Sensor k = None) ->
  (forall k, fault e Indicator k = None) ->
  returns (processTempStateButton e).
Proof.
  intros Hs Hi. unfold processTempStateButton, cycle, fire.
  repeat returns_step.
  rewrite find_transition_cycle. repeat returns_step.
  - match goal with |- returns (on_exit _ ?m) => destruct m end;
      unfold on_exit, on_exit_heat, on_exit_cool; repeat returns_step.
  - match goal with |- returns (on_enter _ (cycle_target ?m)) => destruct m end;
      unfold on_enter, cycle_target, on_enter_off, on_enter_heat, on_enter_cool;
      repeat returns_step.
Qed.

Lemma returns_inc_button e :
  (forall k, fault e Sensor k = None) ->
  (forall k, fault e Indicator k = None) ->
  returns (processTempIncButton e).
Proof. intros Hs Hi. unfold processTempIncButton. repeat returns_step. Qed.

Lemma returns_dec_button e :
  (forall k, fault e Sensor k = None) ->
  (forall k, fault e Indicator k = None) ->
  returns (processTempDecButton e).
Proof. intros Hs Hi. unfold processTempDecButton. repeat returns_step. Qed.

Lemma returns_unit (m : M unit) w : returns m -> fst (m w) = Ok tt.
Proof. intro H. destruct (H w) as [[] Ha]. exact Ha. Qed.

Lemma iter_cycle_target n :
  Nat.iter n cycle_target off = nth (n mod 3) [off; heat; cool] off.
Proof.
  induction n as [|n IH].
  - reflexivity.
  - change (Nat.iter (S n) cycle_target off)
      with (cycle_target (Nat.iter n cycle_target off)).
    rewrite IH.
    replace (S n mod 3)%nat with ((n mod 3 + 1) mod 3)%nat
      by (rewrite Nat.Div0.add_mod_idemp_l; f_equal; lia).
    pose proof (Nat.mod_upper_bound n 3 ltac:(lia)) as Hb.
    destruct (n mod 3)%nat as [|[|[|k]]]; try reflexivity; lia.
Qed.

Lemma green_presses e n :
  (forall k, fault e Sensor k = None) ->
  (forall k, fault e Indicator k = None) ->
  forall w,
    current_state (press_all e (repeat greenButton n) w) =
    Nat.iter n cycle_target (current_state w).
Proof.
  intros Hs Hi. induction n as [|n IH]; intro w.
  - reflexivity.
  - cbn [repeat press_all fold_left when_pressed].
    change (fold_left (fun w b => snd (when_pressed e b w)) (repeat greenButton n)
              (snd (processTempStateButton e w)))
      with (press_all e (repeat greenButton n) (snd (processTempStateButton e w))).
    rewrite IH, Nat.iter_succ_r. f_equal.
    destruct (state_button_step e w) as [_ H]. apply H.
    apply returns_unit. apply returns_state_button; assumption.
Qed.

(** C1: from the initial state [off], the mode after [n] calls of the mode
    button is [[Off, Heat, Cool][n mod 3]] when sensor and LEDs answer; the
    transitions of [cycle] are exactly Off to Heat, Heat to Cool and Cool to
    Off, and a call of the button either takes one of them or, when it
    raises early, leaves the mode where it was. *)
Theorem cycle_mode_after_n_calls :
  forall e,
    (forall n,
        (forall k, fault e Sensor k = None) ->
        (forall k, fault e Indicator k = None) ->
        current_state (press_all e (repeat greenButton n) initial_world) =
        nth (n mod 3) [off; heat; cool] off) /\
    (forall a b,
        find_transition cycle_transitions a = Some b <->
        (a, b) = (off, heat) \/ (a, b) = (heat, cool) \/ (a, b) = (cool, off)) /\
    (forall w,
        let w' := snd (processTempStateButton e w) in
        current_state w' = current_state w \/
        In (current_state w, current_state w') cycle_transitions) /\
    (forall w,
        fst (processTempStateButton e w) = Ok tt ->
        In (current_state w,
            current_state (snd (processTempStateButton e w))) cycle_transitions).
Proof.
  intro e. split; [|split; [|split]].
  - intros n Hs Hi. rewrite (green_presses e n Hs Hi).
    apply iter_cycle_target.
  - intros a b. rewrite find_transition_cycle. split.
    + intro H. inversion H. destruct a; cbn; auto.
    + intros [H|[H|H]]; inversion H; reflexivity.
  - intros w w'.
    destruct (state_button_step e w) as [[H|H] _]; [left; exact H|right].
    fold w' in H. rewrite H. destruct (current_state w); cbn; auto.
  - intros w Hok. destruct (state_button_step e w) as [_ H]. rewrite (H Hok).
    destruct (current_state w); cbn; auto.
Qed.

Lemma cycle_mode_after_n_calls_witness :
  current_state (press_all (env_calm 65) (repeat greenButton 5) initial_world)
    = cool /\
  In (off, heat) cycle_transitions.
Proof.
  split.
  - exact (proj1 (cycle_mode_after_n_calls (env_calm 65)) 5%nat
             (fun _ => eq_refl) (fun _ => eq_refl)).
  - exact (proj2 (proj2 (proj2 (cycle_mode_after_n_calls (env_calm 65))))
             initial_world eq_refl).
Defined.

(** C2: the increase button sets the set point to [min(setpoint + 1, 90)],
    the decrease button to [max(setpoint - 1, 40)], whatever the
    collaborators do; from a set point in [[40, 90]] every sequence of
    button presses leaves it in [[40, 90]]; and neither button raises as
    long as the sensor and the LEDs answer. *)
Theorem setpoint_stays_in_range :
  forall e,
    (forall w,
        setPoint (snd (processTempIncButton e w)) = Z.min (setPoint w + 1) 90) /\
    (forall w,
        setPoint (snd (processTempDecButton e w)) = Z.max (setPoint w - 1) 40) /\
    (forall bs w,
        40 <= setPoint w <= 90 -> 40 <= setPoint (press_all e bs w) <= 90) /\
    (forall w,
        (forall k, fault e Sensor k = None) ->
        (forall k, fault e Indicator k = None) ->
        fst (processTempIncButton e w) = Ok tt /\
        fst (processTempDecButton e w) = Ok tt).
Proof.
  intro e. split; [|split; [|split]].
  - apply inc_setPoint.
  - apply dec_setPoint.
  - intros bs w. apply press_all_setPoint_range.
  - intros w Hs Hi. split; apply returns_unit.
    + apply returns_inc_button; assumption.
    + apply returns_dec_button; assumption.
Qed.

Lemma setpoint_stays_in_range_witness :
  40 <= setPoint
          (press_all (env_calm 70) [redButton; redButton; blueButton]
             (world_at heat 89)) <= 90 /\
  fst (processTempIncButton (env_calm 70) (world_at heat 90)) = Ok tt.
Proof.
  split.
  - apply (proj1 (proj2 (proj2 (setpoint_stays_in_range (env_calm 70))))).
    cbn. lia.
  - apply (proj2 (proj2 (proj2 (setpoint_stays_in_range (env_calm 70))))
             (world_at heat 90) (fun _ => eq_refl) (fun _ => eq_refl)).
Defined.

(** C10: away from the bounds the two set point buttons undo each other
    (increase then decrease from 40..89, decrease then increase from 41..90);
    at the bounds they do not: from 90 increase then decrease gives 89, from
    40 decrease then increase gives 41. *)
Theorem setpoint_round_trip :
  forall e w,
    (40 <= setPoint w <= 89 ->
     setPoint (press_all e [redButton; blueButton] w) = setPoint w) /\
    (41 <= setPoint w <= 90 ->
     setPoint (press_all e [blueButton; redButton] w) = setPoint w) /\
    (setPoint w = 90 ->
     setPoint (press_all e [redButton; blueButton] w) = 89) /\
    (setPoint w = 40 ->
     setPoint (press_all e [blueButton; redButton] w) = 41).
Proof.
  intros e w. unfold press_all. cbn [fold_left when_pressed].
  rewrite !inc_setPoint, !dec_setPoint, inc_setPoint.
  repeat split; intros; lia.
Qed.

Lemma setpoint_round_trip_witness :
  setPoint (press_all (env_calm 70) [redButton; blueButton] (world_at off 72))
    = 72 /\
  setPoint (press_all (env_calm 70) [blueButton; redButton] (world_at off 72))
    = 72 /\
  setPoint (press_all (env_calm 70) [redButton; blueButton] (world_at off 90))
    = 89 /\
  setPoint (press_all (env_calm 70) [blueButton; redButton] (world_at off 40))
    = 41.
Proof.
  split; [|split; [|split]].
  - apply (proj1 (setpoint_round_trip (env_calm 70) (world_at off 72))).
    cbn. lia.
  - apply (proj1 (proj2 (setpoint_round_trip (env_calm 70) (world_at off 72)))).
    cbn. lia.
  - apply (proj1 (proj2 (proj2
             (setpoint_round_trip (env_calm 70) (world_at off 90))))).
    reflexivity.
  - apply (proj2 (proj2 (proj2
             (setpoint_round_trip (env_calm 70) (world_at off 40))))).
    reflexivity.
Defined.

(** C3: one evaluation of [updateLights] leaves the two LEDs as the indicator
    policy says, as a function of mode, temperature read and set point only:
    both off in Off; in Heat the red one pulsing below the set point and
    solid otherwise (also at equality), the blue one off; in Cool the blue
    one pulsing above the set point and solid otherwise, the red one off. *)
Theorem indicator_policy_of_updateLights :
  forall e w,
    fault e Sensor (now w) = None ->
    (forall k, fault e Indicator k = None) ->
    let t := sensor e (now w) in
    let sp := setPoint w in
    exists w',
      updateLights e w = (Ok tt, w') /\
      machine w' = machine w /\
      (redLight w', blueLight w') = indicator_policy (current_state w) t sp /\
      (current_state w = off -> redLight w' = LedOff /\ blueLight w' = LedOff) /\
      (current_state w = heat ->
       (t < sp -> redLight w' = LedPulse) /\
       (sp <= t -> redLight w' = LedSolid) /\ blueLight w' = LedOff) /\
      (current_state w = cool ->
       (t > sp -> blueLight w' = LedPulse) /\
       (t <= sp -> blueLight w' = LedSolid) /\ redLight w' = LedOff).
Proof.
  intros e w Hs Hi t sp.
  destruct (updateLights_ok e w Hs Hi) as (w' & Hrun & Hm & Hl & _).
  exists w'. fold t sp in Hl.
  split; [exact Hrun|]. split; [exact Hm|]. split; [exact Hl|].
  split; [|split]; intro Hst; rewrite Hst in Hl; cbn [indicator_policy] in Hl;
    injection Hl as Hr Hb.
  - auto.
  - split; [|split].
    + intro H. apply Z.ltb_lt in H. rewrite Hr, H. reflexivity.
    + intro H. apply Z.ltb_ge in H. rewrite Hr, H. reflexivity.
    + exact Hb.
  - split; [|split].
    + intro H. apply Z.gt_lt, Z.gtb_lt in H. rewrite Hb, H. reflexivity.
    + intro H. rewrite Hb, Z.gtb_ltb. apply Z.ltb_ge in H. rewrite H.
      reflexivity.
    + exact Hr.
Qed.

Lemma indicator_policy_of_updateLights_witness :
  exists w',
    updateLights (env_calm 72) (world_at heat 72) = (Ok tt, w') /\
    redLight w' = LedSolid /\ blueLight w' = LedOff.
Proof.
  destruct (indicator_policy_of_updateLights (env_calm 72) (world_at heat 72)
              eq_refl (fun _ => eq_refl))
    as (w' & Hrun & _ & _ & _ & Hheat & _).
  exists w'. split; [exact Hrun|].
  destruct (Hheat eq_refl) as (_ & Hsolid & Hblue).
  split; [apply Hsolid; cbn; lia | exact Hblue].
Defined.

(** ** Strings *)

Lemma append_assoc (a b c : string) : (a ++ b) ++ c = a ++ (b ++ c).
Proof. induction a as [|x a IH]; cbn; [reflexivity | now rewrite IH]. Qed.

Lemma length_append (a b : string) :
  String.length (a ++ b) = (String.length a + String.length b)%nat.
Proof. induction a as [|x a IH]; cbn; [reflexivity | now rewrite IH]. Qed.

Lemma length_spaces n : String.length (Py.spaces n) = n.
Proof. induction n as [|n IH]; cbn; [reflexivity | now rewrite IH]. Qed.

Lemma length_slice_to n s :
  String.length (Py.slice_to n s) = Nat.min n (String.length s).
Proof.
  unfold Py.slice_to. revert s.
  induction n as [|n IH]; intros [|c s]; cbn; try reflexivity.
  now rewrite IH.
Qed.

Lemma length_fit16 s : String.length (_fit16 s) = 16%nat.
Proof.
  unfold _fit16, Py.ljust.
  rewrite length_append, length_spaces, length_slice_to. lia.
Qed.

Lemma upper_state_id m : Py.upper (state_id m) = MODE m.
Proof. destruct m; reflexivity. Qed.

Lemma serial_output_telegram m t sp :
  (Py.upper (state_id m) ++ "," ++ Py.str t ++ "," ++ Py.str sp) ++ newline =
  telegram m t sp.
Proof.
  unfold telegram. rewrite upper_state_id, !append_assoc. reflexivity.
Qed.

(** ** One pass of the refresh loop when at most the UART raises *)

Lemma line2_step_run e alt w :
  (forall k, fault e Sensor k = None) ->
  (forall k, fault e Indicator k = None) ->
  exists w',
    line2_step e alt w =
      (Ok (line2_text e alt (current_state w) (setPoint w) (now w),
           next_alt alt), w') /\
    trace w' =
      (line2_events e alt (current_state w) (setPoint w) (now w)
         ++ trace w)%list /\
    machine w' = machine w /\
    (redLight w', blueLight w') =
      line2_lights e alt (current_state w) (setPoint w) (now w)
        (redLight w, blueLight w).
Proof.
  intros Hs Hi.
  unfold line2_step, line2_text, line2_events, line2_lights, next_alt.
  destruct (alt <? 6) eqn:Halt.
  - exec_with Hs. eexists. split; [reflexivity|]. auto.
  - exec. destruct (alt + 1 >=? 11) eqn:Hwin.
    + destruct (updateLights_ok e w (Hs _) Hi) as (w' & Hrun & Hm & Hl & Ht).
      unfold now in *. rewrite Hrun. exists w'. auto.
    + exec. eexists. split; [reflexivity|]. destruct w; auto.
Qed.

Lemma uart_step_run e cnt w :
  (forall k, fault e Sensor k = None) ->
  exists w',
    uart_step e cnt w = (Ok (next_counter cnt), w') /\
    trace w' =
      (uart_events e cnt (current_state w) (setPoint w) (now w)
         ++ trace w)%list /\
    machine w' = machine w /\
    (redLight w', blueLight w') = (redLight w, blueLight w).
Proof.
  intros Hs.
  unfold uart_step, uart_events, next_counter, setupSerialOutput.
  destruct (cnt mod 30 =? 0) eqn:Hc.
  - exec_with Hs. rewrite serial_output_telegram.
    destruct (fault e Serial (S (List.length (trace w)))) eqn:Hu; exec;
      (eexists; split; [reflexivity|]); auto.
  - exec. eexists. split; [reflexivity|]. destruct w; auto.
Qed.

Lemma loop_body_run e l w :
  only_serial_faults e ->
  exists w',
    loop_body e l w = (Ok (next_locals l), w') /\
    trace w' =
      (tick_events e l (current_state w) (setPoint w) (now w) ++ trace w)%list /\
    machine w' = machine w /\
    (redLight w', blueLight w') =
      line2_lights e (altCounter l) (current_state w) (setPoint w) (2 + now w)
        (redLight w, blueLight w).
Proof.
  intro H.
  assert (Hs : forall k, fault e Sensor k = None) by (intro; apply H; discriminate).
  assert (Hi : forall k, fault e Indicator k = None) by (intro; apply H; discriminate).
  assert (Hd : forall k, fault e Display k = None) by (intro; apply H; discriminate).
  unfold loop_body, updateScreen, tick_events. exec.
  match goal with
  | |- context [line2_step e ?a ?W] =>
      destruct (line2_step_run e a W Hs Hi) as (w2 & -> & Ht2 & Hm2 & Hl2)
  end.
  exec_with Hd.
  match goal with
  | |- context [uart_step e ?c ?W] =>
      destruct (uart_step_run e c W Hs) as (w3 & -> & Ht3 & Hm3 & Hl3)
  end.
  exec. unfold now in *. cbn [trace current_state setPoint redLight blueLight
                               List.length] in *.
  eexists. split; [reflexivity|].
  cbn [trace current_state setPoint endDisplay redLight blueLight machine].
  apply machine_fields in Hm2, Hm3.
  cbn [current_state setPoint endDisplay] in Hm2, Hm3.
  destruct Hm2 as (Hm2a & Hm2b & Hm2c). destruct Hm3 as (Hm3a & Hm3b & Hm3c).
  rewrite Ht3, Ht2, Hm2a, Hm2b. cbn [List.length].
  rewrite length_app. cbn [List.length].
  split; [|split].
  - rewrite <- !app_assoc. cbn [app Nat.add].
    repeat f_equal; lia.
  - unfold machine. cbn [current_state setPoint endDisplay]. congruence.
  - cbn [redLight blueLight Nat.add]. congruence.
Qed.

Lemma led_commands_updateLights_events m t sp :
  led_commands (updateLights_events m t sp) = policy_commands m t sp.
Proof. destruct m; reflexivity. Qed.

Lemma led_commands_uart_events e c m sp k :
  led_commands (uart_events e c m sp k) = [].
Proof.
  unfold uart_events. destruct (c mod 30 =? 0); [|reflexivity].
  destruct (fault e Serial (S k)); reflexivity.
Qed.

Lemma led_commands_tick e l m sp k :
  led_commands (tick_events e l m sp k) =
  if altCounter l <? 6 then []
  else if altCounter l + 1 >=? 11 then policy_commands m (sensor e (2 + k)) sp
  else [].
Proof.
  unfold tick_events, led_commands.
  cbv zeta. rewrite !filter_app. cbn [filter is_led app].
  fold (led_commands (uart_events e (counter l) m sp
          (List.length (line2_events e (altCounter l) m sp (2 + k)) + (5 + k)))).
  rewrite led_commands_uart_events, app_nil_r. cbn [app].
  unfold line2_events.
  destruct (altCounter l <? 6); [reflexivity|].
  destruct (altCounter l + 1 >=? 11); [|reflexivity].
  apply led_commands_updateLights_events.
Qed.

Lemma lcd_messages_line2_events e alt m sp k :
  lcd_messages (line2_events e alt m sp k) = [].
Proof.
  unfold line2_events. destruct (alt <? 6); [reflexivity|].
  destruct (alt + 1 >=? 11); [|reflexivity]. destruct m; reflexivity.
Qed.

Lemma lcd_messages_uart_events e c m sp k :
  lcd_messages (uart_events e c m sp k) = [].
Proof.
  unfold uart_events. destruct (c mod 30 =? 0); [|reflexivity].
  destruct (fault e Serial (S k)); reflexivity.
Qed.

Lemma lcd_messages_tick e l m sp k :
  lcd_messages (tick_events e l m sp k) =
  [EvLcdMessage ((_fit16 (clock e (S k)) ++ newline) ++
                 line2_text e (altCounter l) m sp (2 + k))].
Proof.
  unfold tick_events, lcd_messages.
  cbv zeta. rewrite !filter_app. cbn [filter is_lcd_message app].
  fold (lcd_messages (uart_events e (counter l) m sp
          (List.length (line2_events e (altCounter l) m sp (2 + k)) + (5 + k)))).
  fold (lcd_messages (line2_events e (altCounter l) m sp (2 + k))).
  rewrite lcd_messages_uart_events, lcd_messages_line2_events.
  reflexivity.
Qed.

Lemma serial_events_line2_events e alt m sp k :
  serial_events (line2_events e alt m sp k) = [].
Proof.
  unfold line2_events. destruct (alt <? 6); [reflexivity|].
  destruct (alt + 1 >=? 11); [|reflexivity]. destruct m; reflexivity.
Qed.

Lemma serial_events_tick e l m sp k :
  serial_events (tick_events e l m sp k) =
  if counter l mod 30 =? 0 then
    match fault e Serial (S (uart_call e l m sp k)) with
    | None => [EvUart (telegram m (sensor e (uart_call e l m sp k)) sp)]
    | Some x => [EvFault Serial x]
    end
  else [].
Proof.
  unfold tick_events, serial_events, uart_call.
  cbv zeta. rewrite !filter_app. cbn [filter is_serial app].
  fold (serial_events (line2_events e (altCounter l) m sp (2 + k))).
  rewrite serial_events_line2_events. cbn [app]. rewrite app_nil_r.
  unfold uart_events.
  destruct (counter l mod 30 =? 0); [|reflexivity].
  destruct (fault e Serial _); reflexivity.
Qed.

(** ** Many passes *)

Lemma loop_unfold e fuel l :
  loop e fuel l =
  bind (gets endDisplay)
    (fun stop =>
       if stop then bind (cleanupDisplay e) (fun _ => ret Finished)
       else match fuel with
            | O => ret (Running l)
            | S fuel' => bind (loop_body e l) (fun l' => loop e fuel' l')
            end).
Proof. destruct fuel; reflexivity. Qed.

Lemma loop_run e :
  only_serial_faults e ->
  forall n l w,
    endDisplay w = false ->
    exists w',
      loop e n l w = (Ok (Running (Nat.iter n next_locals l)), w') /\
      machine w' = machine w.
Proof.
  intros H n. induction n as [|n IH]; intros l w Hend.
  - exists w. rewrite loop_unfold, bind_run. cbn [gets]. rewrite Hend.
    split; reflexivity.
  - rewrite loop_unfold, bind_run. cbn [gets]. rewrite Hend, bind_run.
    destruct (loop_body_run e l w H) as (w1 & -> & _ & Hm1 & _).
    destruct (IH (next_locals l) w1) as (w2 & Hrun & Hm2).
    + apply machine_fields in Hm1. destruct Hm1 as (_ & _ & ->). exact Hend.
    + exists w2. rewrite Hrun, Nat.iter_succ_r. split; [reflexivity|].
      congruence.
Qed.

Lemma next_alt_mod alt :
  1 <= alt <= 10 -> next_alt alt = alt mod 10 + 1.
Proof.
  intro H. unfold next_alt.
  destruct (alt <? 6) eqn:H6.
  - apply Z.ltb_lt in H6. rewrite Z.mod_small by lia. reflexivity.
  - apply Z.ltb_ge in H6. destruct (alt + 1 >=? 11) eqn:H11.
    + assert (alt = 10) by lia. subst alt. reflexivity.
    + rewrite Z.mod_small by lia. reflexivity.
Qed.

Lemma next_counter_mod c :
  1 <= c <= 30 -> next_counter c = c mod 30 + 1.
Proof.
  intro H. unfold next_counter.
  destruct (c mod 30 =? 0) eqn:H0.
  - apply Z.eqb_eq in H0. rewrite H0. reflexivity.
  - apply Z.eqb_neq in H0.
    assert (c <> 30) by (intro; subst c; apply H0; reflexivity).
    rewrite Z.mod_small by lia. reflexivity.
Qed.

Lemma locals_after_spec k :
  counter (locals_after k) = Z.of_nat k mod 30 + 1 /\
  altCounter (locals_after k) = Z.of_nat k mod 10 + 1.
Proof.
  unfold locals_after. induction k as [|k [IHc IHa]].
  - split; reflexivity.
  - rewrite Nat.iter_succ.
    change (counter (next_locals ?x)) with (next_counter (counter x)).
    change (altCounter (next_locals ?x)) with (next_alt (altCounter x)).
    rewrite IHc, IHa.
    pose proof (Z.mod_pos_bound (Z.of_nat k) 30 ltac:(lia)).
    pose proof (Z.mod_pos_bound (Z.of_nat k) 10 ltac:(lia)).
    rewrite next_counter_mod, next_alt_mod by lia.
    rewrite Nat2Z.inj_succ, <- !Z.add_1_r.
    rewrite !Z.add_mod_idemp_l by lia. split; reflexivity.
Qed.

(** ** The display, the telegram and the write failure *)

(** A pass reads the sensor for line 2 at positions 1 to 5 and at the window
    boundary. *)
Lemma in_line2_events_sensor e alt m sp k evs1 evs3 :
  (alt <? 6) = true \/ (alt + 1 >=? 11) = true ->
  In (EvSensor (sensor e k)) (evs1 ++ line2_events e alt m sp k ++ evs3).
Proof.
  intros H. apply in_or_app. right. apply in_or_app. left.
  unfold line2_events, updateLights_events.
  destruct (alt <? 6); [left; reflexivity|].
  destruct H as [H|H]; [discriminate|]. rewrite H.
  apply in_or_app. right. cbn. auto 10.
Qed.

Lemma only_serial_faults_calm t : only_serial_faults (env_calm t).
Proof. intros o k _. reflexivity. Qed.

Lemma only_serial_faults_uart_down t : only_serial_faults (env_uart_down t).
Proof. intros [] k H; try reflexivity. exfalso. apply H. reflexivity. Qed.


Lemma no_space_append a b : no_space (a ++ b) = no_space a && no_space b.
Proof.
  induction a as [|c a IH]; cbn; [reflexivity|].
  rewrite IH, andb_assoc. reflexivity.
Qed.

Lemma no_space_uint d : no_space (NilEmpty.string_of_uint d) = true.
Proof. induction d; cbn; auto. Qed.

Lemma no_space_str z : no_space (Py.str z) = true.
Proof.
  unfold Py.str, NilZero.string_of_int, NilZero.string_of_uint.
  destruct (Z.to_int z) as [d|d]; destruct d; cbn [no_space NilEmpty.string_of_uint];
    rewrite ?no_space_uint; reflexivity.
Qed.

(** C4: the telegram written to the UART in a pass whose counter is a
    multiple of 30 is [<MODE>,<temp>,<setpoint>] followed by one line feed
    (the byte 10), with the mode in upper case, the temperature just read
    and the set point, and no white space before the line feed; at Cool, 70,
    68 the bytes written are those of [COOL,70,68] and the line feed. *)
Theorem telegram_wire_format :
  (forall e l w,
      healthy e ->
      counter l mod 30 = 0 ->
      exists w' evs t,
        loop_body e l w = (Ok (next_locals l), w') /\
        trace w' = (evs ++ trace w)%list /\
        In (EvSensor t) evs /\
        serial_events evs =
          [EvUart (MODE (current_state w) ++ "," ++ Py.str t ++ "," ++
                   Py.str (setPoint w) ++ String "010"%char EmptyString)]) /\
  (forall e w,
      fault e Sensor (now w) = None ->
      fst (setupSerialOutput e w) =
        Ok (MODE (current_state w) ++ "," ++ Py.str (sensor e (now w)) ++ "," ++
            Py.str (setPoint w))) /\
  (forall m t sp,
      no_space (MODE m ++ "," ++ Py.str t ++ "," ++ Py.str sp) = true) /\
  (exists msg,
      serial_events
        (trace (snd (loop_body (env_calm 70)
                       {| counter := 30; altCounter := 3 |}
                       (world_at cool 68)))) = [EvUart msg] /\
      msg = "COOL,70,68" ++ String "010"%char EmptyString /\
      map nat_of_ascii (list_ascii_of_string msg) =
        [67; 79; 79; 76; 44; 55; 48; 44; 54; 56; 10]%nat).
Proof.
  split; [|split; [|split]].
  - intros e l w H Hc.
    assert (Hsf : only_serial_faults e) by (intros o k _; apply H).
    destruct (loop_body_run e l w Hsf) as (w' & Hbody & Ht & _).
    exists w', (tick_events e l (current_state w) (setPoint w) (now w)),
      (sensor e (uart_call e l (current_state w) (setPoint w) (now w))).
    split; [exact Hbody|]. split; [exact Ht|]. split.
    + unfold tick_events, uart_events. cbv zeta.
      apply Z.eqb_eq in Hc. rewrite Hc, H.
      fold (uart_call e l (current_state w) (setPoint w) (now w)).
      cbn. auto.
    + rewrite serial_events_tick. apply Z.eqb_eq in Hc. rewrite Hc, H.
      reflexivity.
  - intros e w Hs. unfold setupSerialOutput. exec_with Hs.
    rewrite upper_state_id. reflexivity.
  - intros m t sp. rewrite !no_space_append, !no_space_str.
    destruct m; reflexivity.
  - eexists. split; [vm_compute; reflexivity|]. split; reflexivity.
Qed.

Lemma healthy_calm t : healthy (env_calm t).
Proof. intros o k. reflexivity. Qed.

Lemma telegram_wire_format_witness :
  (exists w' evs t,
      loop_body (env_calm 70) {| counter := 30; altCounter := 10 |}
        (world_at cool 68) =
        (Ok (next_locals {| counter := 30; altCounter := 10 |}), w') /\
      trace w' = (evs ++ trace (world_at cool 68))%list /\
      In (EvSensor t) evs /\
      serial_events evs =
        [EvUart (MODE cool ++ "," ++ Py.str t ++ "," ++ Py.str 68 ++
                 String "010"%char EmptyString)]) /\
  fst (setupSerialOutput (env_calm 70) (world_at cool 68)) = Ok "COOL,70,68" /\
  (exists msg,
      serial_events
        (trace (snd (loop_body (env_calm 70)
                       {| counter := 30; altCounter := 3 |}
                       (world_at cool 68)))) = [EvUart msg] /\
      msg = "COOL,70,68" ++ String "010"%char EmptyString /\
      map nat_of_ascii (list_ascii_of_string msg) =
        [67; 79; 79; 76; 44; 55; 48; 44; 54; 56; 10]%nat).
Proof.
  split; [|split].
  - exact (proj1 telegram_wire_format (env_calm 70)
             {| counter := 30; altCounter := 10 |} (world_at cool 68)
             (healthy_calm 70) eq_refl).
  - exact (proj1 (proj2 telegram_wire_format) (env_calm 70) (world_at cool 68)
             eq_refl).
  - exact (proj2 (proj2 (proj2 telegram_wire_format))).
Defined.

Lemma counter_after_reset l :
  counter l = 1 ->
  forall j, (j <= 29)%nat ->
    counter (Nat.iter j next_locals l) = 1 + Z.of_nat j.
Proof.
  intros Hl j. induction j as [|j IH]; intro Hj.
  - cbn. rewrite Hl. reflexivity.
  - rewrite Nat.iter_succ.
    change (counter (next_locals ?x)) with (next_counter (counter x)).
    rewrite IH by lia. rewrite next_counter_mod by lia.
    rewrite Z.mod_small by lia. lia.
Qed.

(** C8: in a pass whose counter is a multiple of 30 one UART write is
    attempted; when it raises, the failure is printed, the pass still
    returns, with the attributes of the machine as they were and the counter
    back at 1; the loop goes on, the next 29 passes attempt no write and the
    30th attempts one. *)
Theorem telegram_write_failure_is_not_fatal :
  forall e l w,
    only_serial_faults e ->
    endDisplay w = false ->
    counter l mod 30 = 0 ->
    exists l1 w1 evs,
      loop_body e l w = (Ok l1, w1) /\
      trace w1 = (evs ++ trace w)%list /\
      counter l1 = 1 /\
      machine w1 = machine w /\
      (exists ev, serial_events evs = [ev]) /\
      (forall x,
          In (EvFault Serial x) evs ->
          In (EvPrint ("UART write failed: " ++ x)) evs) /\
      (forall j, (j <= 29)%nat ->
         exists lj wj wj' evsj,
           loop e j l1 w1 = (Ok (Running lj), wj) /\
           machine wj = machine w /\
           loop_body e lj wj = (Ok (next_locals lj), wj') /\
           trace wj' = (evsj ++ trace wj)%list /\
           ((j < 29)%nat -> serial_events evsj = []) /\
           (j = 29%nat -> exists ev, serial_events evsj = [ev])).
Proof.
  intros e l w H Hend Hc.
  destruct (loop_body_run e l w H) as (w1 & Hbody & Ht & Hm & _).
  assert (Hc' : (counter l mod 30 =? 0) = true) by (apply Z.eqb_eq; exact Hc).
  assert (Hl1 : counter (next_locals l) = 1).
  { unfold next_locals, next_counter. cbn [counter]. rewrite Hc'. reflexivity. }
  exists (next_locals l), w1,
    (tick_events e l (current_state w) (setPoint w) (now w)).
  split; [exact Hbody|]. split; [exact Ht|]. split; [exact Hl1|].
  split; [exact Hm|]. split; [|split].
  - rewrite serial_events_tick, Hc'.
    destruct (fault e Serial _); eexists; reflexivity.
  - intros x Hin.
    assert (Hs : In (EvFault Serial x)
                   (serial_events
                      (tick_events e l (current_state w) (setPoint w) (now w))))
      by (apply filter_In; split; [exact Hin | reflexivity]).
    rewrite serial_events_tick, Hc' in Hs.
    unfold tick_events, uart_events. cbv zeta. rewrite Hc'.
    fold (uart_call e l (current_state w) (setPoint w) (now w)).
    destruct (fault e Serial (S (uart_call e l (current_state w) (setPoint w)
                                   (now w)))) as [y|].
    + destruct Hs as [Hs|[]]. inversion Hs. subst y. cbn. auto.
    + destruct Hs as [Hs|[]]. discriminate.
  - intros j Hj.
    assert (Hend1 : endDisplay w1 = false).
    { apply machine_fields in Hm. destruct Hm as (_ & _ & ->). exact Hend. }
    destruct (loop_run e H j (next_locals l) w1 Hend1) as (wj & Hrun & Hmj).
    destruct (loop_body_run e (Nat.iter j next_locals (next_locals l)) wj H)
      as (wj' & Hbj & Htj & _).
    eexists _, wj, wj', _.
    split; [exact Hrun|]. split; [congruence|]. split; [exact Hbj|].
    split; [exact Htj|].
    rewrite serial_events_tick, (counter_after_reset _ Hl1 j Hj).
    split.
    + intro Hlt.
      assert (Hn : ((1 + Z.of_nat j) mod 30 =? 0) = false).
      { apply Z.eqb_neq. rewrite Z.mod_small by lia. lia. }
      rewrite Hn. reflexivity.
    + intro He. subst j. cbn [Z.of_nat Pos.of_succ_nat].
      change ((1 + 29) mod 30 =? 0) with true. cbv iota.
      destruct (fault e Serial _); eexists; reflexivity.
Qed.

Lemma telegram_write_failure_is_not_fatal_witness :
  exists l1 w1 evs,
    loop_body (env_uart_down 70) {| counter := 30; altCounter := 10 |}
      (world_at heat 72) = (Ok l1, w1) /\
    trace w1 = (evs ++ trace (world_at heat 72))%list /\
    counter l1 = 1 /\
    machine w1 = machine (world_at heat 72) /\
    (forall x,
        In (EvFault Serial x) evs ->
        In (EvPrint ("UART write failed: " ++ x)) evs) /\
    exists l30 w30 w30' evs30 ev,
      loop (env_uart_down 70) 29 l1 w1 = (Ok (Running l30), w30) /\
      loop_body (env_uart_down 70) l30 w30 = (Ok (next_locals l30), w30') /\
      trace w30' = (evs30 ++ trace w30)%list /\
      serial_events evs30 = [ev].
Proof.
  destruct (telegram_write_failure_is_not_fatal (env_uart_down 70)
              {| counter := 30; altCounter := 10 |} (world_at heat 72)
              (only_serial_faults_uart_down 70) eq_refl eq_refl)
    as (l1 & w1 & evs & H1 & H2 & H3 & H4 & _ & H6 & H7).
  exists l1, w1, evs.
  split; [exact H1|]. split; [exact H2|]. split; [exact H3|].
  split; [exact H4|]. split; [exact H6|].
  destruct (H7 29%nat (le_n 29)) as (lj & wj & wj' & evsj & Ha & _ & Hb & Hc
                                     & _ & Hd).
  destruct (Hd eq_refl) as [ev Hev].
  exists lj, wj, wj', evsj, ev. auto.
Defined.

(** The same pass, evaluated: the write raises, the failure is printed, the
    counter is back at 1 and the mode and set point are untouched. *)
Example uart_failure_pass :
  let r := loop_body (env_uart_down 70) {| counter := 30; altCounter := 3 |}
             (world_at heat 72) in
  fst r = Ok {| counter := 1; altCounter := 4 |} /\
  machine (snd r) = (heat, 72, false) /\
  firstn 3 (trace (snd r)) =
    [EvSleep 1; EvPrint "UART write failed: write failed";
     EvFault Serial "write failed"].
Proof. vm_compute. auto. Qed.

(** ** Shutdown *)

Lemma loop_flag e fuel l w :
  endDisplay w = true ->
  loop e fuel l w = bind (cleanupDisplay e) (fun _ => ret Finished) w.
Proof.
  intro H. rewrite loop_unfold, bind_run. cbn [gets]. rewrite H. reflexivity.
Qed.

Lemma cleanupDisplay_events e w :
  exists evs,
    trace (snd (cleanupDisplay e w)) = (evs ++ trace w)%list /\
    forallb is_teardown evs = true /\
    ((forall k, fault e Display k = None) ->
     fst (cleanupDisplay e w) = Ok tt /\ evs = teardown_events).
Proof.
  unfold cleanupDisplay.
  exec_all;
    match goal with
    | |- exists evs, ?t = (evs ++ ?t0)%list /\ _ =>
        let rec go t :=
          lazymatch t with
          | t0 => constr:(@nil Event)
          | ?x :: ?r => let r' := go r in constr:(x :: r')
          end in
        let evs := go t in exists evs
    end;
    (split; [reflexivity|]); (split; [reflexivity|]);
    intro Hd; try (split; reflexivity);
    exfalso;
    repeat match goal with
           | E : fault e Display ?k = Some _ |- _ =>
               rewrite Hd in E; discriminate E
           end.
Qed.

Lemma keeps_lights_cleanupDisplay e :
  keeps (fun w => (redLight w, blueLight w)) (cleanupDisplay e).
Proof. intro w. unfold cleanupDisplay. exec_all; reflexivity. Qed.

(** C6, as the code does it: when the loop test sees the flag, the cycle
    tears the display down and ends without another pass; it sends no
    command to either LED, which stay as they were. *)
Theorem shutdown_tears_down_display_only :
  forall e fuel l w,
    endDisplay w = true ->
    let r := fst (loop e fuel l w) in
    let w' := snd (loop e fuel l w) in
    redLight w' = redLight w /\
    blueLight w' = blueLight w /\
    machine w' = machine w /\
    exists evs,
      trace w' = (evs ++ trace w)%list /\
      forallb is_teardown evs = true /\
      led_commands evs = [] /\
      ((forall k, fault e Display k = None) ->
       r = Ok Finished /\ evs = teardown_events).
Proof.
  intros e fuel l w Hend r w'. subst r w'.
  rewrite (loop_flag e fuel l w Hend), bind_run.
  pose proof (keeps_cleanupDisplay machine e passive_machine w) as Km.
  pose proof (keeps_lights_cleanupDisplay e w) as Kl.
  destruct (cleanupDisplay_events e w) as (evs & Ht & Htd & Hok).
  destruct (cleanupDisplay e w) as [[[]|x] w1]; cbn [fst snd ret] in *;
    injection Kl as Kr Kb;
    (split; [exact Kr|]); (split; [exact Kb|]); (split; [exact Km|]);
    exists evs; (split; [exact Ht|]); (split; [exact Htd|]); split.
  - clear - Htd. induction evs as [|ev evs IH]; [reflexivity|].
    cbn [forallb] in Htd. apply andb_prop in Htd. destruct Htd as [H1 H2].
    destruct ev; try discriminate H1; cbn; auto.
  - intro Hd. destruct (Hok Hd) as [_ ->]. auto.
  - clear - Htd. induction evs as [|ev evs IH]; [reflexivity|].
    cbn [forallb] in Htd. apply andb_prop in Htd. destruct Htd as [H1 H2].
    destruct ev; try discriminate H1; cbn; auto.
  - intro Hd. destruct (Hok Hd) as [Hr _]. discriminate Hr.
Qed.

Lemma shutdown_tears_down_display_only_witness :
  let w := set_endDisplay true (set_light Red LedPulse (world_at heat 72)) in
  let run := loop (env_calm 65) 5 {| counter := 7; altCounter := 7 |} w in
  redLight (snd run) = LedPulse /\
  fst run = Ok Finished /\
  trace (snd run) = (teardown_events ++ trace w)%list.
Proof.
  intros w run.
  destruct (shutdown_tears_down_display_only (env_calm 65) 5
              {| counter := 7; altCounter := 7 |} w eq_refl)
    as (Hr & _ & _ & evs & Ht & _ & _ & Hok).
  destruct (Hok (fun _ => eq_refl)) as [Hfin Hevs].
  split; [exact Hr|]. split; [exact Hfin|].
  rewrite <- Hevs. exact Ht.
Defined.

(** C6, as stated, fails: the thermostat runs three passes, the mode button
    puts it in Heat below the set point (red LED pulsing), Ctrl-C raises the
    flag, and the refresh loop ends at its next test with the display torn
    down and the red LED still pulsing. *)
Lemma shutdown_leaves_heat_indicator_pulsing :
  let e := env_calm 65 in
  let start := manageMyDisplay e 3 initial_world in
  let w1 := press_all e [greenButton] (snd start) in
  let w2 := snd (interrupt_signal w1) in
  let l := {| counter := 4; altCounter := 4 |} in
  fst start = Ok (Running l) /\
  endDisplay w2 = true /\
  fst (loop e 1 l w2) = Ok Finished /\
  redLight (snd (loop e 1 l w2)) = LedPulse /\
  ~ (redLight (snd (loop e 1 l w2)) = LedOff /\
     blueLight (snd (loop e 1 l w2)) = LedOff).
Proof.
  vm_compute. repeat split; try reflexivity.
  intros [H _]. discriminate H.
Qed.

(** ** Failures of the other collaborators *)

Lemma escapes_ret {A} (a : A) : escapes (ret a).
Proof. intro w. exists []. split; reflexivity. Qed.

Lemma escapes_gets {A} (g : World -> A) : escapes (gets g).
Proof. intro w. exists []. split; reflexivity. Qed.

Lemma escapes_debug s : escapes (debug s).
Proof. intro w. exists [EvPrint s]. split; reflexivity. Qed.

Lemma escapes_sleep z : escapes (sleep z).
Proof. intro w. exists [EvSleep z]. split; reflexivity. Qed.

Lemma escapes_clock e : escapes (strftime_now e).
Proof. intro w. eexists [_]. split; reflexivity. Qed.

Lemma escapes_bind {A B} (m : M A) (k : A -> M B) :
  escapes m -> (forall a, escapes (k a)) -> escapes (bind m k).
Proof.
  intros Hm Hk w. rewrite bind_run.
  destruct (Hm w) as (evs1 & Ht1 & H1).
  destruct (m w) as [[a|x] w1]; cbn [fst snd] in *.
  - destruct (Hk a w1) as (evs2 & Ht2 & H2).
    exists (evs2 ++ evs1)%list. split.
    + rewrite Ht2, Ht1, app_assoc. reflexivity.
    + destruct (fst (k a w1)) as [b|x].
      * unfold foreign_faults in *. rewrite filter_app, H1, H2. reflexivity.
      * destruct H2 as (Ho & evs' & -> & H2). split; [exact Ho|].
        exists (evs' ++ evs1)%list. split; [reflexivity|].
        unfold foreign_faults in *. rewrite filter_app, H1, H2. reflexivity.
  - exists evs1. auto.
Qed.

Lemma escapes_if {A} (c : bool) (m1 m2 : M A) :
  escapes m1 -> escapes m2 -> escapes (if c then m1 else m2).
Proof. destruct c; auto. Qed.

Lemma escapes_io e o ev :
  o <> Serial -> is_foreign_fault ev = false -> escapes (io e o ev).
Proof.
  intros Ho Hev w. unfold io. destruct (fault e o (now w)) as [msg|].
  - exists [EvFault o msg]. split; [reflexivity|]. cbn.
    split; [exact Ho|]. exists []. split; reflexivity.
  - exists [ev]. split; [reflexivity|]. cbn. rewrite Hev. reflexivity.
Qed.

Lemma escapes_sensor e : escapes (floor_getFahrenheit e).
Proof.
  intro w. unfold floor_getFahrenheit.
  destruct (fault e Sensor (now w)) as [msg|].
  - exists [EvFault Sensor msg]. split; [reflexivity|]. cbn.
    split; [discriminate|]. exists []. split; reflexivity.
  - eexists [_]. split; reflexivity.
Qed.

Lemma escapes_led e l c : escapes (led e l c).
Proof.
  unfold led. apply escapes_bind.
  - apply escapes_io; [discriminate | reflexivity].
  - intros _ w. exists []. split; [destruct l|]; reflexivity.
Qed.

Lemma escapes_display e ev :
  is_foreign_fault ev = false -> escapes (io e Display ev).
Proof. intro H. apply escapes_io; [discriminate | exact H]. Qed.

(** The guarded UART write lets nothing out. *)
Lemma escapes_uart_write e msg :
  escapes
    (try_except
       (bind (io e Serial (EvUart msg))
          (fun _ => debug ("UART -> " ++ Py.strip msg)))
       (fun x => debug ("UART write failed: " ++ exn_text x))).
Proof.
  intro w. exec.
  destruct (fault e Serial (List.length (trace w))) as [x|]; exec.
  - eexists [_; _]. split; reflexivity.
  - eexists [_; _]. split; reflexivity.
Qed.

Create HintDb escapes.
#[local] Hint Resolve escapes_ret escapes_gets escapes_debug escapes_sleep
  escapes_clock escapes_sensor escapes_led escapes_uart_write : escapes.
#[local] Hint Extern 1 (escapes (io _ Display _)) =>
  (apply escapes_display; reflexivity) : escapes.

Ltac escapes_step :=
  first
    [ solve [auto with escapes]
    | apply escapes_bind; [|intro]
    | apply escapes_if ].

Lemma escapes_updateLights e : escapes (updateLights e).
Proof.
  unfold updateLights. repeat escapes_step.
  match goal with
  | |- escapes (match ?st with off => _ | _ => _ end) => destruct st
  end; repeat escapes_step.
Qed.

#[local] Hint Resolve escapes_updateLights : escapes.

Lemma escapes_loop_body e l : escapes (loop_body e l).
Proof.
  unfold loop_body, line2_step, updateScreen, uart_step, setupSerialOutput.
  repeat escapes_step.
Qed.

Lemma escapes_cleanupDisplay e : escapes (cleanupDisplay e).
Proof. unfold cleanupDisplay. repeat escapes_step. Qed.

Lemma loop_raise e fuel l w x w' :
  endDisplay w = false ->
  loop_body e l w = (Raise x, w') ->
  loop e (S fuel) l w = (Raise x, w').
Proof.
  intros Hend Hb. rewrite loop_unfold, bind_run. cbn [gets].
  rewrite Hend, bind_run, Hb. reflexivity.
Qed.

(** C9, as the code does it: a pass raises exactly when a call to the
    sensor, the display or an LED raised in it; the exception is not caught,
    so the refresh loop ends with it there and then, with no later pass and
    no display teardown.  A pass that returns has seen at most a failed UART
    write.  At shutdown a failing display teardown is let out the same way,
    and only a failing [ser.close()] is swallowed. *)
Theorem collaborator_failure_ends_refresh_loop :
  forall e fuel l w,
    endDisplay w = false ->
    (forall x w',
        loop_body e l w = (Raise x, w') ->
        exn_origin x <> Serial /\
        loop e (S fuel) l w = (Raise x, w') /\
        exists evs,
          trace w' =
            (EvFault (exn_origin x) (exn_text x) :: evs ++ trace w)%list /\
          foreign_faults evs = []) /\
    (forall l' w',
        loop_body e l w = (Ok l', w') ->
        exists evs,
          trace w' = (evs ++ trace w)%list /\ foreign_faults evs = []) /\
    (forall x w1 w',
        cleanupDisplay e (set_endDisplay true w1) = (Raise x, w') ->
        loop e fuel l (set_endDisplay true w1) = (Raise x, w')) /\
    fst (interrupt_finish e w) = Ok tt.
Proof.
  intros e fuel l w Hend. split; [|split; [|split]].
  - intros x w' Hb. destruct (escapes_loop_body e l w) as (evs & Ht & H).
    rewrite Hb in Ht, H. cbn [fst snd] in Ht, H.
    destruct H as (Ho & evs' & -> & Hq).
    split; [exact Ho|]. split; [apply loop_raise; assumption|].
    exists evs'. split; [exact Ht | exact Hq].
  - intros l' w' Hb. destruct (escapes_loop_body e l w) as (evs & Ht & H).
    rewrite Hb in Ht, H. cbn [fst snd] in Ht, H.
    exists evs. split; [exact Ht | exact H].
  - intros x w1 w' Hc. rewrite loop_flag by reflexivity.
    rewrite bind_run, Hc. reflexivity.
  - unfold interrupt_finish. exec.
    destruct (fault e Serial _); reflexivity.
Qed.

Lemma collaborator_failure_ends_refresh_loop_witness :
  exists x w',
    loop_body (env_fault_at 2 70) {| counter := 1; altCounter := 1 |}
      (world_at heat 72) = (Raise x, w') /\
    exn_origin x = Sensor /\
    loop (env_fault_at 2 70) 10 {| counter := 1; altCounter := 1 |}
      (world_at heat 72) = (Raise x, w').
Proof.
  eexists. eexists.
  split; [vm_compute; reflexivity|]. split; [reflexivity|].
  apply (proj1 (collaborator_failure_ends_refresh_loop (env_fault_at 2 70) 9
                  {| counter := 1; altCounter := 1 |} (world_at heat 72)
                  eq_refl)).
  vm_compute. reflexivity.
Defined.

(** C9, as stated, fails: the sensor read of the first pass raises (call
    number 10, after the eight events of the first [updateLights], the
    print and the clock read); [manageMyDisplay] ends with that exception
    before anything is shown, however many passes it is given. *)
Lemma sensor_failure_stops_refresh_loop :
  let run := manageMyDisplay (env_fault_at 10 70) 100 initial_world in
  fst run = Raise (Exc Sensor "I/O error") /\
  lcd_messages (trace (snd run)) = [] /\
  hd (EvSleep 0) (trace (snd run)) = EvFault Sensor "I/O error" /\
  ~ (exists st, fst run = Ok st).
Proof.
  vm_compute. repeat split; try reflexivity.
  intros [st H]. discriminate H.
Qed.

(** * Further properties of the thermostat *)

(** ** Button presses *)

Lemma passive_endDisplay : passive endDisplay.
Proof. split; [reflexivity | intros [] c w; reflexivity]. Qed.

Lemma keeps_current_state_inc e : keeps current_state (processTempIncButton e).
Proof.
  intro w. rewrite inc_world,
    (keeps_updateLights current_state e passive_current_state).
  reflexivity.
Qed.

Lemma keeps_current_state_dec e : keeps current_state (processTempDecButton e).
Proof.
  intro w. rewrite dec_world,
    (keeps_updateLights current_state e passive_current_state).
  reflexivity.
Qed.

Lemma press_adjust e b w :
  setPoint (snd (when_pressed e b w)) = adjust (setPoint w) b.
Proof.
  destruct b; cbn [when_pressed adjust].
  - apply keeps_setPoint_state_button.
  - apply inc_setPoint.
  - apply dec_setPoint.
Qed.

Lemma press_all_cons e b bs w :
  press_all e (b :: bs) w = press_all e bs (snd (when_pressed e b w)).
Proof. reflexivity. Qed.

Lemma press_mode e b w :
  (forall k, fault e Sensor k = None) ->
  (forall k, fault e Indicator k = None) ->
  current_state (snd (when_pressed e b w)) =
  if Button_eq_dec b greenButton then cycle_target (current_state w)
  else current_state w.
Proof.
  intros Hs Hi. destruct b; cbn [when_pressed].
  - destruct (Button_eq_dec greenButton greenButton) as [_|H];
      [|exfalso; apply H; reflexivity].
    destruct (state_button_step e w) as [_ H]. apply H.
    apply returns_unit. apply returns_state_button; assumption.
  - destruct (Button_eq_dec redButton greenButton) as [H|_]; [discriminate|].
    apply keeps_current_state_inc.
  - destruct (Button_eq_dec blueButton greenButton) as [H|_]; [discriminate|].
    apply keeps_current_state_dec.
Qed.

(** X1: the buttons act on separate attributes.  After any sequence of
    presses the set point is the fold of the clamped adjustments, in which a
    mode press counts for nothing; and, sensor and LEDs answering, the mode
    is the start mode advanced once per mode press, whatever set point
    presses lie in between. *)
Theorem buttons_act_independently :
  forall e bs w,
    setPoint (press_all e bs w) = fold_left adjust bs (setPoint w) /\
    ((forall k, fault e Sensor k = None) ->
     (forall k, fault e Indicator k = None) ->
     current_state (press_all e bs w) =
       Nat.iter (count_occ Button_eq_dec bs greenButton) cycle_target
         (current_state w)).
Proof.
  intros e bs. induction bs as [|b bs IH]; intro w.
  - split; reflexivity.
  - rewrite press_all_cons. destruct (IH (snd (when_pressed e b w))) as [IHs IHm].
    split.
    + rewrite IHs, press_adjust. reflexivity.
    + intros Hs Hi. rewrite (IHm Hs Hi), (press_mode e b w Hs Hi).
      cbn [count_occ].
      destruct (Button_eq_dec b greenButton) as [E|N].
      * subst b. destruct (Button_eq_dec greenButton greenButton) as [_|H];
          [|exfalso; apply H; reflexivity].
        rewrite Nat.iter_succ_r. reflexivity.
      * destruct (Button_eq_dec b greenButton) as [E|_]; [contradiction|].
        reflexivity.
Qed.

Lemma buttons_act_independently_witness :
  let w := press_all (env_calm 65)
             [redButton; greenButton; blueButton; blueButton; greenButton]
             (world_at off 72) in
  setPoint w = 71 /\ current_state w = cool.
Proof.
  split.
  - exact (proj1 (buttons_act_independently (env_calm 65)
                    [redButton; greenButton; blueButton; blueButton; greenButton]
                    (world_at off 72))).
  - exact (proj2 (buttons_act_independently (env_calm 65)
                    [redButton; greenButton; blueButton; blueButton; greenButton]
                    (world_at off 72))
             (fun _ => eq_refl) (fun _ => eq_refl)).
Defined.

(** X2: holding a set point button saturates.  From a set point of at most
    90, [n] presses of the increase button give [min(setpoint + n, 90)];
    from a set point of at least 40, [n] presses of the decrease button give
    [max(setpoint - n, 40)]; whatever the collaborators do. *)
Theorem repeated_presses_saturate :
  forall e n w,
    (setPoint w <= 90 ->
     setPoint (press_all e (repeat redButton n) w) =
       Z.min (setPoint w + Z.of_nat n) 90) /\
    (40 <= setPoint w ->
     setPoint (press_all e (repeat blueButton n) w) =
       Z.max (setPoint w - Z.of_nat n) 40).
Proof.
  intros e n. induction n as [|n IH]; intro w.
  - cbn [repeat press_all fold_left Z.of_nat]. split; intro; lia.
  - cbn [repeat]. rewrite !press_all_cons.
    destruct (IH (snd (when_pressed e redButton w))) as [IHr _].
    destruct (IH (snd (when_pressed e blueButton w))) as [_ IHb].
    rewrite press_adjust in IHr, IHb. cbn [adjust] in IHr, IHb.
    split; intro H.
    + rewrite IHr by lia. lia.
    + rewrite IHb by lia. lia.
Qed.

Lemma repeated_presses_saturate_witness :
  setPoint (press_all (env_calm 65) (repeat redButton 30) (world_at off 72))
    = 90 /\
  setPoint (press_all (env_calm 65) (repeat blueButton 5) (world_at off 72))
    = 67.
Proof.
  split.
  - apply (proj1 (repeated_presses_saturate (env_calm 65) 30 (world_at off 72))).
    cbn. lia.
  - apply (proj2 (repeated_presses_saturate (env_calm 65) 5 (world_at off 72))).
    cbn. lia.
Defined.

(** ** The lit LED names the mode *)

Lemma lights_match_mode_ext w w' :
  current_state w' = current_state w ->
  lights w' = lights w ->
  lights_match_mode w' = lights_match_mode w.
Proof.
  unfold lights_match_mode, lights. intros -> H. injection H as -> ->.
  reflexivity.
Qed.

Lemma lights_match_mode_policy w m t sp :
  current_state w = m ->
  lights w = indicator_policy m t sp ->
  lights_match_mode w = true.
Proof.
  unfold lights_match_mode, lights. intros -> H.
  destruct m; cbn [indicator_policy] in H; injection H as -> ->.
  - reflexivity.
  - destruct (t <? sp); reflexivity.
  - destruct (t >? sp); reflexivity.
Qed.

Lemma updateLights_match e w :
  (forall k, fault e Sensor k = None) ->
  (forall k, fault e Indicator k = None) ->
  lights_match_mode (snd (updateLights e w)) = true.
Proof.
  intros Hs Hi.
  destruct (updateLights_ok e w (Hs _) Hi) as (w' & -> & Hm & Hl & _).
  cbn [snd]. apply machine_fields in Hm. destruct Hm as (Hm & Hsp & _).
  eapply lights_match_mode_policy; [reflexivity|].
  unfold lights. rewrite Hl, Hm. reflexivity.
Qed.

Lemma returns_cycle e :
  (forall k, fault e Sensor k = None) ->
  (forall k, fault e Indicator k = None) ->
  returns (cycle e).
Proof.
  intros Hs Hi. unfold cycle, fire. repeat returns_step.
  rewrite find_transition_cycle. repeat returns_step.
  - match goal with |- returns (on_exit _ ?m) => destruct m end;
      unfold on_exit, on_exit_heat, on_exit_cool; repeat returns_step.
  - match goal with |- returns (on_enter _ (cycle_target ?m)) => destruct m end;
      unfold on_enter, cycle_target, on_enter_off, on_enter_heat, on_enter_cool;
      repeat returns_step.
Qed.

Lemma state_button_world e w :
  (forall k, fault e Sensor k = None) ->
  (forall k, fault e Indicator k = None) ->
  exists w1, processTempStateButton e w = updateLights e w1.
Proof.
  intros Hs Hi. unfold processTempStateButton. rewrite bind_run.
  cbv beta iota delta [debug DEBUG print modify]. rewrite bind_run.
  pose proof (returns_unit _ (log (EvPrint "Cycling Temperature State") w)
                (returns_cycle e Hs Hi)) as Hc.
  destruct (cycle e (log (EvPrint "Cycling Temperature State") w)) as [r w1].
  cbn [fst] in Hc. subst r. exists w1. reflexivity.
Qed.

Lemma press_match e b w :
  (forall k, fault e Sensor k = None) ->
  (forall k, fault e Indicator k = None) ->
  lights_match_mode (snd (when_pressed e b w)) = true.
Proof.
  intros Hs Hi. destruct b; cbn [when_pressed].
  - destruct (state_button_world e w Hs Hi) as [w1 ->].
    apply updateLights_match; assumption.
  - rewrite inc_world. apply updateLights_match; assumption.
  - rewrite dec_world. apply updateLights_match; assumption.
Qed.

Lemma loop_body_match e l w :
  only_serial_faults e ->
  lights_match_mode w = true ->
  lights_match_mode (snd (loop_body e l w)) = true.
Proof.
  intros H Hw.
  destruct (loop_body_run e l w H) as (w' & -> & _ & Hm & Hl).
  cbn [snd]. apply machine_fields in Hm. destruct Hm as (Hm & Hsp & _).
  unfold line2_lights in Hl.
  destruct (altCounter l <? 6);
    [|destruct (altCounter l + 1 >=? 11)].
  - rewrite (lights_match_mode_ext w w' Hm Hl). exact Hw.
  - eapply lights_match_mode_policy; [exact Hm | exact Hl].
  - rewrite (lights_match_mode_ext w w' Hm Hl). exact Hw.
Qed.

Lemma loop_match e :
  only_serial_faults e ->
  forall fuel l w,
    lights_match_mode w = true ->
    lights_match_mode (snd (loop e fuel l w)) = true.
Proof.
  intros H fuel. induction fuel as [|fuel IH]; intros l w Hw;
    rewrite loop_unfold, bind_run; cbn [gets];
    destruct (endDisplay w) eqn:Hend.
  - rewrite bind_run.
    pose proof (keeps_cleanupDisplay current_state e passive_current_state w)
      as Km.
    pose proof (keeps_lights_cleanupDisplay e w) as Kl.
    destruct (cleanupDisplay e w) as [[[]|x] w1]; cbn [fst snd ret] in *;
      rewrite (lights_match_mode_ext w w1 Km Kl); exact Hw.
  - exact Hw.
  - rewrite bind_run.
    pose proof (keeps_cleanupDisplay current_state e passive_current_state w)
      as Km.
    pose proof (keeps_lights_cleanupDisplay e w) as Kl.
    destruct (cleanupDisplay e w) as [[[]|x] w1]; cbn [fst snd ret] in *;
      rewrite (lights_match_mode_ext w w1 Km Kl); exact Hw.
  - rewrite bind_run.
    pose proof (loop_body_match e l w H Hw) as Hb.
    destruct (loop_body e l w) as [[l'|x] w1]; cbn [snd] in *.
    + apply IH. exact Hb.
    + exact Hb.
Qed.

(** X3: the lit LED names the mode, for a callback or a refresh run taken on
    its own.  With at most the UART raising, when a button callback has run
    to its end with no other thread acting in between, and likewise when a
    run of the refresh thread has, no LED is lit in Off, the red one only in
    Heat and the blue one only in Cool; the passes of the loop keep it that
    way.  The source takes no lock, so this says nothing of a callback that
    runs inside a pass of the refresh thread. *)
Theorem lit_led_names_the_mode :
  forall e,
    only_serial_faults e ->
    (forall b w, lights_match_mode (snd (when_pressed e b w)) = true) /\
    (forall fuel w, lights_match_mode (snd (manageMyDisplay e fuel w)) = true) /\
    (forall fuel l w,
        lights_match_mode w = true ->
        lights_match_mode (snd (loop e fuel l w)) = true).
Proof.
  intros e H.
  assert (Hs : forall k, fault e Sensor k = None) by (intro; apply H; discriminate).
  assert (Hi : forall k, fault e Indicator k = None) by (intro; apply H; discriminate).
  split; [|split].
  - intros b w. apply press_match; assumption.
  - intros fuel w. unfold manageMyDisplay. rewrite bind_run.
    pose proof (updateLights_match e w Hs Hi) as Hu.
    destruct (updateLights e w) as [[[]|x] w1]; cbn [snd] in *.
    + apply loop_match; assumption.
    + exact Hu.
  - intros fuel l w. apply loop_match. exact H.
Qed.

Lemma lit_led_names_the_mode_witness :
  lights_match_mode
    (snd (when_pressed (env_uart_down 65) greenButton (world_at heat 72)))
    = true /\
  lights_match_mode
    (snd (manageMyDisplay (env_uart_down 65) 31
            (set_light Blue LedSolid (world_at heat 72)))) = true.
Proof.
  split.
  - apply (proj1 (lit_led_names_the_mode (env_uart_down 65)
                    (only_serial_faults_uart_down 65))).
  - apply (proj1 (proj2 (lit_led_names_the_mode (env_uart_down 65)
                           (only_serial_faults_uart_down 65)))).
Defined.

(** ** The cadence of the telegram *)

(** X4: counted from the start of the refresh thread, pass number [n]
    attempts a UART write exactly when [n] is a multiple of 30, and then
    exactly one; the counter stays within 1..30 and the alternation counter
    within 1..10 (at most the UART raising). *)
Theorem telegram_every_thirtieth_pass :
  forall e w0 (k : nat),
    only_serial_faults e ->
    endDisplay w0 = false ->
    exists l w w' evs,
      loop e k {| counter := 1; altCounter := 1 |} w0 = (Ok (Running l), w) /\
      loop_body e l w = (Ok (next_locals l), w') /\
      trace w' = (evs ++ trace w)%list /\
      1 <= counter l <= 30 /\
      1 <= altCounter l <= 10 /\
      ((Z.of_nat k + 1) mod 30 = 0 -> exists ev, serial_events evs = [ev]) /\
      ((Z.of_nat k + 1) mod 30 <> 0 -> serial_events evs = []).
Proof.
  intros e w0 k H Hend.
  destruct (loop_run e H k {| counter := 1; altCounter := 1 |} w0 Hend)
    as (w & Hrun & _).
  fold (locals_after k) in Hrun.
  destruct (loop_body_run e (locals_after k) w H) as (w' & Hbody & Ht & _).
  destruct (locals_after_spec k) as [Hc Ha].
  pose proof (Z.mod_pos_bound (Z.of_nat k) 30 ltac:(lia)) as B30.
  pose proof (Z.mod_pos_bound (Z.of_nat k) 10 ltac:(lia)) as B10.
  exists (locals_after k), w, w',
    (tick_events e (locals_after k) (current_state w) (setPoint w) (now w)).
  split; [exact Hrun|]. split; [exact Hbody|]. split; [exact Ht|].
  split; [lia|]. split; [lia|].
  rewrite serial_events_tick, Hc.
  assert (E : (Z.of_nat k mod 30 + 1) mod 30 = (Z.of_nat k + 1) mod 30)
    by (rewrite Z.add_mod_idemp_l by lia; reflexivity).
  rewrite E. split; intro Hk.
  - rewrite Hk. cbn [Z.eqb]. destruct (fault e Serial _); eexists; reflexivity.
  - apply Z.eqb_neq in Hk. rewrite Hk. reflexivity.
Qed.

Lemma telegram_every_thirtieth_pass_witness :
  exists l w w' evs ev,
    loop (env_calm 65) 59 {| counter := 1; altCounter := 1 |} (world_at off 72)
      = (Ok (Running l), w) /\
    loop_body (env_calm 65) l w = (Ok (next_locals l), w') /\
    trace w' = (evs ++ trace w)%list /\
    serial_events evs = [ev].
Proof.
  destruct (telegram_every_thirtieth_pass (env_calm 65) (world_at off 72) 59
              (only_serial_faults_calm 65) eq_refl)
    as (l & w & w' & evs & H1 & H2 & H3 & _ & _ & H6 & _).
  destruct (H6 eq_refl) as [ev Hev].
  exists l, w, w', evs, ev. auto.
Defined.

(** ** What the LCD lines show *)

Lemma substring_all n s :
  (String.length s <= n)%nat -> substring 0 n s = s.
Proof.
  revert s. induction n as [|n IH]; intros [|c s] H; cbn in *;
    try reflexivity; try lia.
  rewrite IH by lia. reflexivity.
Qed.

Lemma append_empty_r s : s ++ "" = s.
Proof. induction s as [|c s IH]; cbn; [reflexivity | now rewrite IH]. Qed.

Lemma substring_append n s r :
  String.length s = n -> substring 0 n (s ++ r) = s.
Proof.
  revert s. induction n as [|n IH]; intros [|c s] H; cbn in *;
    try discriminate.
  - destruct r; reflexivity.
  - rewrite IH by lia. reflexivity.
Qed.

Lemma substring_prefix n s :
  exists r, s = substring 0 n s ++ r.
Proof.
  revert s. induction n as [|n IH]; intros [|c s]; cbn.
  - exists "". reflexivity.
  - exists (String c s). reflexivity.
  - exists "". reflexivity.
  - destruct (IH s) as [r Hr]. exists r. rewrite <- Hr. reflexivity.
Qed.

Lemma fit16_pads_or_cuts_aux s :
  ((String.length s <= 16)%nat ->
   _fit16 s = s ++ Py.spaces (16 - String.length s)) /\
  ((16 <= String.length s)%nat ->
   _fit16 s = substring 0 16 s /\ exists r, s = _fit16 s ++ r) /\
  _fit16 (_fit16 s) = _fit16 s.
Proof.
  split; [|split].
  - intro H. unfold _fit16, Py.ljust, Py.slice_to.
    rewrite substring_all by exact H. reflexivity.
  - intro H.
    assert (E : _fit16 s = substring 0 16 s).
    { unfold _fit16, Py.ljust. fold (Py.slice_to 16 s).
      rewrite length_slice_to.
      replace (16 - Nat.min 16 (String.length s))%nat with 0%nat by lia.
      cbn [Py.spaces]. apply append_empty_r. }
    split; [exact E|]. rewrite E. apply substring_prefix.
  - pose proof (length_fit16 s) as L.
    unfold _fit16 at 1. unfold Py.ljust, Py.slice_to.
    rewrite substring_all by lia. rewrite L. cbn [Nat.sub Py.spaces].
    apply append_empty_r.
Qed.

(** X5: [_fit16] pads a text of at most 16 characters with spaces on the
    right and leaves the text itself untouched; it cuts a longer text down
    to its first 16 characters; and fitting twice is fitting once. *)
Theorem fit16_pads_or_cuts :
  forall s,
    ((String.length s <= 16)%nat ->
     _fit16 s = s ++ Py.spaces (16 - String.length s)) /\
    ((16 <= String.length s)%nat ->
     _fit16 s = substring 0 16 s /\ exists r, s = _fit16 s ++ r) /\
    _fit16 (_fit16 s) = _fit16 s.
Proof. exact fit16_pads_or_cuts_aux. Qed.

Lemma fit16_pads_or_cuts_witness :
  _fit16 "HEAT SP: 72F" = "HEAT SP: 72F    " /\
  _fit16 "Temp:12345678901F" = "Temp:12345678901".
Proof.
  split.
  - rewrite (proj1 (fit16_pads_or_cuts "HEAT SP: 72F")) by (cbn; lia).
    reflexivity.
  - rewrite (proj1 (proj1 (proj2 (fit16_pads_or_cuts "Temp:12345678901F"))
                      ltac:(cbn; lia))).
    reflexivity.
Defined.

Lemma in_z_range lo n z :
  lo <= z < lo + Z.of_nat n -> In z (z_range lo n).
Proof.
  intro H. unfold z_range. apply in_map_iff.
  exists (Z.to_nat (z - lo)). split; [lia|].
  apply in_seq. lia.
Qed.

Lemma length_str_small z :
  -99 <= z <= 999 -> (String.length (Py.str z) <= 3)%nat.
Proof.
  intro H.
  assert (A : forallb (fun z => Nat.leb (String.length (Py.str z)) 3)
                (z_range (-99) 1099) = true) by (vm_compute; reflexivity).
  rewrite forallb_forall in A.
  apply Nat.leb_le, A, in_z_range. lia.
Qed.

Lemma length_rjust n s :
  String.length (Py.rjust n s) = Nat.max n (String.length s).
Proof.
  unfold Py.rjust. rewrite length_append, length_spaces. lia.
Qed.

(** X6: readings and set points of at most three characters (-99 to 999,
    which holds every set point the buttons allow) are shown whole: the
    temperature view has 9 characters and the mode view at most 12, so
    [_fit16] only pads them and the unit letter is never cut off. *)
Theorem lcd_views_shown_whole :
  forall m z,
    -99 <= z <= 999 ->
    String.length (temp_view z) = 9%nat /\
    _fit16 (temp_view z) = temp_view z ++ Py.spaces 7 /\
    String.length (mode_view m z) = (String.length (MODE m) + 8)%nat /\
    _fit16 (mode_view m z) =
      mode_view m z ++ Py.spaces (8 - String.length (MODE m)).
Proof.
  intros m z H. pose proof (length_str_small z H) as L.
  assert (Lt : String.length (temp_view z) = 9%nat).
  { unfold temp_view. rewrite !length_append, length_rjust.
    cbn [String.length]. lia. }
  assert (Lm : String.length (mode_view m z) = (String.length (MODE m) + 8)%nat).
  { unfold mode_view. rewrite upper_state_id, !length_append, length_rjust.
    cbn [String.length]. lia. }
  split; [exact Lt|]. split; [|split; [exact Lm|]].
  - rewrite (proj1 (fit16_pads_or_cuts_aux (temp_view z))) by lia.
    rewrite Lt. reflexivity.
  - assert (String.length (MODE m) <= 4)%nat by (destruct m; cbn; lia).
    rewrite (proj1 (fit16_pads_or_cuts_aux (mode_view m z))) by lia.
    rewrite Lm. f_equal. f_equal. lia.
Qed.

Lemma lcd_views_shown_whole_witness :
  _fit16 (temp_view (-5)) = "Temp: -5F       " /\
  _fit16 (mode_view cool 90) = "COOL SP: 90F    ".
Proof.
  split.
  - rewrite (proj1 (proj2 (lcd_views_shown_whole off (-5) ltac:(lia)))).
    reflexivity.
  - rewrite (proj2 (proj2 (proj2 (lcd_views_shown_whole cool 90 ltac:(lia))))).
    reflexivity.
Defined.

(** ** The alternation of line 2, its text and the place of the LED refresh *)

Lemma blanks_spaces n : blanks n = Py.spaces n.
Proof.
  unfold blanks. induction n as [|n IH]; cbn; [reflexivity|].
  rewrite IH. reflexivity.
Qed.

Lemma temp_view_spec t : temp_view t = current_temperature_view t.
Proof.
  unfold temp_view, current_temperature_view, right_justified_3, Py.rjust.
  rewrite blanks_spaces. reflexivity.
Qed.

Lemma mode_view_spec m sp : mode_view m sp = mode_and_setpoint_view m sp.
Proof.
  unfold mode_view, mode_and_setpoint_view, right_justified_3, Py.rjust.
  rewrite blanks_spaces, upper_state_id. reflexivity.
Qed.

Lemma fit16_spec s : _fit16 s = truncated_or_padded_16 s.
Proof.
  unfold truncated_or_padded_16. rewrite blanks_spaces.
  destruct (Nat.leb_spec (String.length s) 16) as [H|H].
  - apply (proj1 (fit16_pads_or_cuts_aux s)). exact H.
  - apply (proj1 (proj2 (fit16_pads_or_cuts_aux s))). lia.
Qed.

Lemma led_commands_line2_events e alt m sp k :
  led_commands (line2_events e alt m sp k) =
  if alt <? 6 then []
  else if alt + 1 >=? 11 then policy_commands m (sensor e k) sp
  else [].
Proof.
  unfold line2_events. destruct (alt <? 6); [reflexivity|].
  destruct (alt + 1 >=? 11); [|reflexivity].
  apply led_commands_updateLights_events.
Qed.

Lemma in_line2_events_sensor_older e alt m sp k ev evs3 :
  (alt <? 6) = true \/ (alt + 1 >=? 11) = true ->
  In (EvSensor (sensor e k)) (ev :: line2_events e alt m sp k ++ evs3).
Proof.
  intro H. apply (in_line2_events_sensor e alt m sp k [ev] evs3 H).
Qed.

(** C5, as the code does it: in pass number [k + 1] of the refresh loop, at
    position [k mod 10 + 1] of its window of ten, the LCD gets one message:
    the fitted time, a line feed and line 2, each line of 16 characters.
    Line 2 is the current-temperature view at positions 1 to 5 and the
    mode-and-setpoint view at positions 6 to 10, truncated or padded to 16
    characters.  No LED command is sent at positions 1 to 9; at position 10
    the policy is evaluated once, and its LED commands are all sent before
    the message of that pass is written to the LCD, none after.  The thread
    also evaluates the policy once when it starts, before the first pass. *)
Theorem display_line2_alternation :
  forall e w0,
    only_serial_faults e ->
    endDisplay w0 = false ->
    (forall k : nat,
        let pos := Z.of_nat k mod 10 + 1 in
        exists l w w' newer older line1 line2,
          loop e k {| counter := 1; altCounter := 1 |} w0
            = (Ok (Running l), w) /\
          loop_body e l w = (Ok (next_locals l), w') /\
          trace w' =
            (newer ++
             EvLcdMessage ((line1 ++ String "010"%char EmptyString) ++ line2)
             :: older ++ trace w)%list /\
          lcd_messages newer = [] /\
          lcd_messages older = [] /\
          String.length line1 = 16%nat /\
          String.length line2 = 16%nat /\
          (pos <= 5 ->
           exists t,
             In (EvSensor t) older /\
             line2 = truncated_or_padded_16 (current_temperature_view t)) /\
          (6 <= pos ->
           line2 =
             truncated_or_padded_16
               (mode_and_setpoint_view (current_state w) (setPoint w))) /\
          led_commands newer = [] /\
          (pos < 10 ->
           led_commands older = [] /\
           (redLight w', blueLight w') = (redLight w, blueLight w)) /\
          (pos = 10 ->
           exists t,
             In (EvSensor t) older /\
             led_commands older =
               policy_commands (current_state w) t (setPoint w) /\
             (redLight w', blueLight w') =
               indicator_policy (current_state w) t (setPoint w))) /\
    (forall fuel,
        exists w1 evs0,
          updateLights e w0 = (Ok tt, w1) /\
          manageMyDisplay e fuel w0
            = loop e fuel {| counter := 1; altCounter := 1 |} w1 /\
          trace w1 = (evs0 ++ trace w0)%list /\
          led_commands evs0 =
            policy_commands (current_state w0) (sensor e (now w0))
              (setPoint w0)).
Proof.
  intros e w0 H Hend.
  assert (Hs : forall k, fault e Sensor k = None) by (intro; apply H; discriminate).
  assert (Hi : forall k, fault e Indicator k = None) by (intro; apply H; discriminate).
  split.
  - intros k pos.
    destruct (loop_run e H k {| counter := 1; altCounter := 1 |} w0 Hend)
      as (w & Hrun & Hm).
    fold (locals_after k) in Hrun.
    destruct (loop_body_run e (locals_after k) w H)
      as (w' & Hbody & Ht & _ & Hl).
    destruct (locals_after_spec k) as [_ Halt]. fold pos in Halt.
    assert (Hpos : 1 <= pos <= 10)
      by (unfold pos; pose proof (Z.mod_pos_bound (Z.of_nat k) 10); lia).
    set (l := locals_after k) in *.
    set (m := current_state w) in *. set (sp := setPoint w) in *.
    set (evs2 := line2_events e (altCounter l) m sp (2 + now w)).
    exists l, w, w',
      ((EvSleep 1 ::
        uart_events e (counter l) m sp (List.length evs2 + (5 + now w))) ++
       [EvPrint ("Counter: " ++ Py.str (counter l))])%list,
      (EvLcdClear :: evs2 ++
       [EvClock (clock e (S (now w))); EvPrint "Processing Display Info..."])%list,
      (_fit16 (clock e (S (now w)))),
      (line2_text e (altCounter l) m sp (2 + now w)).
    split; [exact Hrun|]. split; [exact Hbody|].
    split.
    { rewrite Ht. unfold tick_events. cbv zeta. fold evs2.
      rewrite <- !app_assoc. cbn [app]. rewrite <- ?app_assoc. cbn [app].
      reflexivity. }
    split.
    { unfold lcd_messages. rewrite filter_app. cbn [filter is_lcd_message].
      fold (lcd_messages (uart_events e (counter l) m sp
                            (List.length evs2 + (5 + now w)))).
      rewrite lcd_messages_uart_events. reflexivity. }
    split.
    { unfold lcd_messages. cbn [filter is_lcd_message]. rewrite filter_app.
      fold (lcd_messages evs2). unfold evs2.
      rewrite lcd_messages_line2_events. reflexivity. }
    split; [apply length_fit16|].
    assert (Lo : led_commands
                   (EvLcdClear :: evs2 ++
                    [EvClock (clock e (S (now w)));
                     EvPrint "Processing Display Info..."]) =
                 led_commands evs2).
    { unfold led_commands. cbn [filter is_led]. rewrite filter_app.
      cbn [filter is_led]. apply app_nil_r. }
    rewrite !Lo. subst evs2. rewrite !led_commands_line2_events, Hl.
    unfold line2_text, line2_lights. rewrite Halt.
    split; [destruct (pos <? 6); apply length_fit16|].
    split; [|split; [|split; [|split]]].
    + intro Hp. assert (Hlt : (pos <? 6) = true) by (apply Z.ltb_lt; lia).
      rewrite Hlt. exists (sensor e (2 + now w)).
      split; [|rewrite fit16_spec, temp_view_spec; reflexivity].
      apply in_line2_events_sensor_older. left. exact Hlt.
    + intro Hp. assert (Hlt : (pos <? 6) = false) by (apply Z.ltb_ge; lia).
      rewrite Hlt, fit16_spec, mode_view_spec. reflexivity.
    + unfold led_commands. rewrite filter_app. cbn [filter is_led].
      rewrite app_nil_r. apply led_commands_uart_events.
    + intro Hp. destruct (pos <? 6); [split; reflexivity|].
      assert (Hw : (pos + 1 >=? 11) = false)
        by (rewrite Z.geb_leb; apply Z.leb_gt; lia).
      rewrite Hw. split; reflexivity.
    + intro Hp. assert (Hlt : (pos <? 6) = false) by (apply Z.ltb_ge; lia).
      assert (Hw : (pos + 1 >=? 11) = true)
        by (rewrite Z.geb_leb; apply Z.leb_le; lia).
      rewrite Hlt, Hw. exists (sensor e (2 + now w)).
      split; [|split; reflexivity].
      apply in_line2_events_sensor_older. right. exact Hw.
  - intro fuel.
    destruct (updateLights_ok e w0 (Hs _) Hi) as (w1 & Hrun & _ & _ & Ht).
    exists w1,
      (updateLights_events (current_state w0) (sensor e (now w0)) (setPoint w0)).
    split; [exact Hrun|]. split.
    + unfold manageMyDisplay. rewrite bind_run, Hrun. reflexivity.
    + split; [exact Ht | apply led_commands_updateLights_events].
Qed.

Lemma display_line2_alternation_witness :
  let e := env_calm 65 in
  let w0 := world_at heat 72 in
  (exists l w w' newer older line1 line2 t,
      loop e 2 {| counter := 1; altCounter := 1 |} w0 = (Ok (Running l), w) /\
      loop_body e l w = (Ok (next_locals l), w') /\
      trace w' =
        (newer ++
         EvLcdMessage ((line1 ++ String "010"%char EmptyString) ++ line2)
         :: older ++ trace w)%list /\
      In (EvSensor t) older /\
      line2 = truncated_or_padded_16 (current_temperature_view t) /\
      led_commands newer = [] /\ led_commands older = []) /\
  (exists l w w' newer older line1 line2 t,
      loop e 9 {| counter := 1; altCounter := 1 |} w0 = (Ok (Running l), w) /\
      loop_body e l w = (Ok (next_locals l), w') /\
      trace w' =
        (newer ++
         EvLcdMessage ((line1 ++ String "010"%char EmptyString) ++ line2)
         :: older ++ trace w)%list /\
      line2 =
        truncated_or_padded_16
          (mode_and_setpoint_view (current_state w) (setPoint w)) /\
      led_commands newer = [] /\
      led_commands older = policy_commands (current_state w) t (setPoint w)) /\
  truncated_or_padded_16 (current_temperature_view 65) = "Temp: 65F       " /\
  truncated_or_padded_16 (mode_and_setpoint_view heat 72) = "HEAT SP: 72F    ".
Proof.
  intros e w0.
  pose proof (display_line2_alternation e w0 (only_serial_faults_calm 65)
                eq_refl) as [P _].
  split; [|split; [|split; reflexivity]].
  - destruct (P 2%nat)
      as (l & w & w' & newer & older & line1 & line2 & H1 & H2 & H3 & _ & _ & _
          & _ & H8 & _ & H10 & H11 & _).
    destruct (H8 ltac:(cbn; lia)) as (t & Hin & Hline).
    destruct (H11 ltac:(cbn; lia)) as (Hleds & _).
    exists l, w, w', newer, older, line1, line2, t. auto 10.
  - destruct (P 9%nat)
      as (l & w & w' & newer & older & line1 & line2 & H1 & H2 & H3 & _ & _ & _
          & _ & _ & H9 & H10 & _ & H12).
    destruct (H12 eq_refl) as (t & _ & Hleds & _).
    exists l, w, w', newer, older, line1, line2, t.
    split; [exact H1|]. split; [exact H2|]. split; [exact H3|].
    split; [apply H9; cbn; lia|]. split; [exact H10 | exact Hleds].
Defined.

(** The same two passes, evaluated: what the LCD is sent in the third and in
    the tenth pass at 65 degrees in Heat with the set point at 72. *)
Example lcd_messages_evaluated :
  let e := env_calm 65 in
  let w3 := snd (loop e 2 {| counter := 1; altCounter := 1 |} (world_at heat 72)) in
  let w10 := snd (loop e 9 {| counter := 1; altCounter := 1 |} (world_at heat 72)) in
  lcd_messages
    (events_since w3 (snd (loop_body e {| counter := 3; altCounter := 3 |} w3)))
    = [EvLcdMessage
         ("12/07 17:43:26  " ++ String "010"%char "Temp: 65F       ")] /\
  lcd_messages
    (events_since w10
       (snd (loop_body e {| counter := 10; altCounter := 10 |} w10)))
    = [EvLcdMessage
         ("12/07 17:43:26  " ++ String "010"%char "HEAT SP: 72F    ")].
Proof. vm_compute. split; reflexivity. Qed.

(** C5, as stated, fails on the place of the LED refresh: in the tenth pass
    the four LED commands of the evaluation are sent before the message of
    that pass (the fifth mode-and-setpoint view) is written to the LCD, not
    after it; and counted from the start of the thread, the first window of
    ten passes holds two evaluations (eight LED commands), the one at the
    start and the one of the tenth pass. *)
Lemma tenth_pass_refreshes_leds_before_view_is_written :
  let e := env_calm 65 in
  let before := loop e 9 {| counter := 1; altCounter := 1 |} (world_at heat 72) in
  let l := {| counter := 10; altCounter := 10 |} in
  let w := snd before in
  let evs := events_since w (snd (loop_body e l w)) in
  fst before = Ok (Running l) /\
  List.length (lcd_messages evs) = 1%nat /\
  List.length (led_commands evs) = 4%nat /\
  led_commands (since_lcd_message evs) = [] /\
  led_commands (since_lcd_message evs) <> led_commands evs /\
  List.length
    (led_commands (trace (snd (manageMyDisplay e 10 (world_at heat 72)))))
    = 8%nat.
Proof.
  vm_compute. repeat split; try reflexivity. discriminate.
Qed.

(** ** The telegram can be read back *)

Lemma to_int_proper z :
  Z.to_int z <> Decimal.Pos Decimal.Nil /\ Z.to_int z <> Decimal.Neg Decimal.Nil.
Proof.
  destruct z as [|p|p]; cbn [Z.to_int]; split; try discriminate;
    intro H; injection H as H; exact (Unsigned.to_uint_nonnil p H).
Qed.

Lemma str_inj a b : Py.str a = Py.str b -> a = b.
Proof.
  unfold Py.str. intro H.
  apply DecimalZ.to_int_inj.
  destruct (to_int_proper a) as [Ha1 Ha2].
  destruct (to_int_proper b) as [Hb1 Hb2].
  pose proof (NilZero.isi (Z.to_int a) Ha1 Ha2) as Ia.
  pose proof (NilZero.isi (Z.to_int b) Hb1 Hb2) as Ib.
  rewrite H, Ib in Ia. injection Ia as Ia. symmetry. exact Ia.
Qed.

Lemma has_char_append c a b :
  has_char c (a ++ b) = has_char c a || has_char c b.
Proof.
  induction a as [|x a IH]; cbn; [reflexivity|].
  rewrite IH, orb_assoc. reflexivity.
Qed.

Lemma has_char_uint c d :
  c = ","%char \/ c = ascii_of_nat 10 ->
  has_char c (NilEmpty.string_of_uint d) = false.
Proof.
  intros [-> | ->]; induction d; cbn; auto.
Qed.

Lemma has_char_str c z :
  c = ","%char \/ c = ascii_of_nat 10 ->
  has_char c (Py.str z) = false.
Proof.
  intro H.
  unfold Py.str, NilZero.string_of_int, NilZero.string_of_uint.
  destruct (Z.to_int z) as [d|d]; destruct d;
    cbn [has_char NilEmpty.string_of_uint];
    rewrite ?(has_char_uint c _ H);
    destruct H as [-> | ->]; reflexivity.
Qed.

(** Two texts free of [c] that agree once [c] and a rest are appended are
    the same, and so are the rests. *)
Lemma split_at_char c a a' r r' :
  has_char c a = false ->
  has_char c a' = false ->
  a ++ String c r = a' ++ String c r' ->
  a = a' /\ r = r'.
Proof.
  revert a'. induction a as [|x a IH]; intros [|x' a'] Ha Ha' H;
    cbn in Ha, Ha', H.
  - injection H as H. auto.
  - injection H as Hc _. subst x'. rewrite Ascii.eqb_refl in Ha'. discriminate.
  - injection H as Hc _. subst x. rewrite Ascii.eqb_refl in Ha. discriminate.
  - injection H as Hx H. subst x'.
    apply orb_false_elim in Ha, Ha'.
    destruct (IH a' (proj2 Ha) (proj2 Ha') H) as [-> ->]. auto.
Qed.

(** X7: the telegram determines what was sent: two telegrams are the same
    text only if mode, temperature and set point are the same, so a reader
    of the serial line can recover all three. *)
Theorem telegram_determines_state :
  forall m t sp m' t' sp',
    telegram m t sp = telegram m' t' sp' ->
    m = m' /\ t = t' /\ sp = sp'.
Proof.
  intros m t sp m' t' sp' H. unfold telegram, newline in H.
  change ("," ++ ?x) with (String "," x) in H.
  assert (Hm : has_char "," (MODE m) = false) by (destruct m; reflexivity).
  assert (Hm' : has_char "," (MODE m') = false) by (destruct m'; reflexivity).
  destruct (split_at_char _ _ _ _ _ Hm Hm' H) as [Em H1].
  destruct (split_at_char _ _ _ _ _
              (has_char_str "," t (or_introl eq_refl))
              (has_char_str "," t' (or_introl eq_refl)) H1) as [Et H2].
  destruct (split_at_char _ _ _ _ _
              (has_char_str (ascii_of_nat 10) sp (or_intror eq_refl))
              (has_char_str (ascii_of_nat 10) sp' (or_intror eq_refl)) H2)
    as [Es _].
  split; [|split].
  - destruct m, m'; try reflexivity; discriminate Em.
  - apply str_inj. exact Et.
  - apply str_inj. exact Es.
Qed.

Lemma telegram_determines_state_witness :
  cool = cool /\ 70 = 70 /\ 68 = 68.
Proof.
  exact (telegram_determines_state cool 70 68 cool 70 68 eq_refl).
Defined.

(** ** The two LEDs are never lit together *)

Lemma lights_at_app a b init :
  lights_at (a ++ b) init = lights_at a (lights_at b init).
Proof. induction a as [|ev a IH]; cbn; [reflexivity | now rewrite IH]. Qed.

Lemma always_one_dark_last evs init :
  always_one_dark evs init = true -> one_dark (lights_at evs init) = true.
Proof.
  destruct evs as [|ev evs]; cbn [always_one_dark lights_at]; [auto|].
  intro H. apply andb_prop in H. apply H.
Qed.

Lemma always_one_dark_app a b init :
  always_one_dark b init = true ->
  always_one_dark a (lights_at b init) = true ->
  always_one_dark (a ++ b) init = true.
Proof.
  intros Hb. induction a as [|ev a IH]; cbn [app always_one_dark]; intro Ha.
  - exact Hb.
  - apply andb_prop in Ha. destruct Ha as [H1 H2].
    cbn [lights_at] in H1 |- *. rewrite lights_at_app, H1, (IH H2).
    reflexivity.
Qed.

Lemma lights_at_quiet evs init :
  led_commands evs = [] -> lights_at evs init = init.
Proof.
  induction evs as [|ev evs IH]; cbn [led_commands filter lights_at];
    [reflexivity|].
  destruct ev; cbn [is_led]; try discriminate; intro H;
    fold (led_commands evs) in H; rewrite (IH H); reflexivity.
Qed.

Lemma always_one_dark_quiet evs init :
  led_commands evs = [] ->
  one_dark init = true ->
  always_one_dark evs init = true.
Proof.
  intros H Hi. induction evs as [|ev evs IH]; cbn [always_one_dark];
    [exact Hi|].
  rewrite (lights_at_quiet (ev :: evs) init H), Hi.
  assert (H' : led_commands evs = []).
  { cbn [led_commands filter] in H. destruct (is_led ev); [discriminate|].
    exact H. }
  rewrite (IH H'). reflexivity.
Qed.

Lemma sat_one_dark d x : sat d x -> one_dark x = true.
Proof.
  destruct x as [r b]. destruct d; cbn; intro H; subst; auto.
  - apply orb_true_r.
  - injection H as -> ->. reflexivity.
Qed.

Lemma triple_bind {A B} P Q R (m : M A) (k : A -> M B) :
  led_triple P m Q ->
  (forall a, led_triple Q (k a) R) ->
  led_triple P (bind m k) R.
Proof.
  intros Hm Hk w HP. rewrite bind_run.
  destruct (Hm w HP) as (evs1 & Ht1 & Hl1 & Hd1 & HQ).
  destruct (m w) as [[a|x] w1]; cbn [fst snd] in *.
  - destruct (Hk a w1 (HQ a eq_refl)) as (evs2 & Ht2 & Hl2 & Hd2 & HR).
    exists (evs2 ++ evs1)%list. split; [|split; [|split]].
    + rewrite Ht2, Ht1, app_assoc. reflexivity.
    + rewrite lights_at_app, Hl1. exact Hl2.
    + apply always_one_dark_app; [exact Hd1 | rewrite Hl1; exact Hd2].
    + exact HR.
  - exists evs1. split; [exact Ht1|]. split; [exact Hl1|].
    split; [exact Hd1|]. intros a Ha. discriminate Ha.
Qed.

Lemma triple_any {A} P d (m : M A) :
  led_triple P m (sat d) -> led_triple P m (sat AnyDark).
Proof.
  intros H w HP. destruct (H w HP) as (evs & Ht & Hl & Hd & HQ).
  exists evs. split; [exact Ht|]. split; [exact Hl|]. split; [exact Hd|].
  intros a Ha. exact (sat_one_dark d _ (HQ a Ha)).
Qed.

Lemma triple_from_any {A} d Q (m : M A) :
  led_triple (sat AnyDark) m Q -> led_triple (sat d) m Q.
Proof. intros H w HP. apply H. exact (sat_one_dark d _ HP). Qed.

Lemma triple_quiet {A} d (m : M A) :
  quiet m -> led_triple (sat d) m (sat d).
Proof.
  intros H w HP. destruct (H w) as (Hl & evs & Ht & Hq).
  exists evs. split; [exact Ht|]. split.
  - rewrite lights_at_quiet by exact Hq. symmetry. exact Hl.
  - split.
    + apply always_one_dark_quiet; [exact Hq | exact (sat_one_dark d _ HP)].
    + intros _ _. rewrite Hl. exact HP.
Qed.

Lemma triple_led e l c d d' :
  step_dark l c d = Some d' ->
  led_triple (sat d) (led e l c) (sat d').
Proof.
  intros Hstep w HP. pose proof (sat_one_dark d _ HP) as Hod.
  destruct w as [m sp ed r b tr]. unfold led, lights in *. exec.
  cbn [redLight blueLight] in *.
  destruct (fault e Indicator (List.length tr)) as [msg|].
  - exists [EvFault Indicator msg]. cbn [fst snd redLight blueLight trace].
    split; [reflexivity|]. split; [reflexivity|].
    split; [|intros a Ha; discriminate Ha].
    cbn [always_one_dark lights_at apply_led]. rewrite Hod. reflexivity.
  - exists [EvLed l c].
    destruct l, c, d; try discriminate Hstep; injection Hstep as <-;
      destruct r, b; cbn in HP; try discriminate HP;
      repeat split; reflexivity.
Qed.

(** Quiet computations. *)

Lemma quiet_ret {A} (a : A) : quiet (ret a).
Proof. intro w. split; [reflexivity|]. exists []. split; reflexivity. Qed.

Lemma quiet_gets {A} (g : World -> A) : quiet (gets g).
Proof. intro w. split; [reflexivity|]. exists []. split; reflexivity. Qed.

Lemma quiet_debug s : quiet (debug s).
Proof. intro w. split; [reflexivity|]. exists [EvPrint s]. split; reflexivity. Qed.

Lemma quiet_print s : quiet (print s).
Proof. intro w. split; [reflexivity|]. exists [EvPrint s]. split; reflexivity. Qed.

Lemma quiet_sleep z : quiet (sleep z).
Proof. intro w. split; [reflexivity|]. exists [EvSleep z]. split; reflexivity. Qed.

Lemma quiet_clock e : quiet (strftime_now e).
Proof. intro w. split; [reflexivity|]. eexists [_]. split; reflexivity. Qed.

Lemma quiet_sensor e : quiet (floor_getFahrenheit e).
Proof.
  intro w. unfold floor_getFahrenheit.
  destruct (fault e Sensor (now w)); (split; [reflexivity|]);
    eexists [_]; split; reflexivity.
Qed.

Lemma quiet_io e o ev : is_led ev = false -> quiet (io e o ev).
Proof.
  intros Hev w. unfold io.
  destruct (fault e o (now w)); (split; [reflexivity|]); eexists [_];
    (split; [reflexivity|]); cbn; rewrite ?Hev; reflexivity.
Qed.

Lemma quiet_set_current_state m : quiet (modify (set_current_state m)).
Proof. intro w. split; [reflexivity|]. exists []. split; reflexivity. Qed.

Lemma quiet_set_setPoint z : quiet (modify (set_setPoint z)).
Proof. intro w. split; [reflexivity|]. exists []. split; reflexivity. Qed.

Lemma quiet_set_endDisplay b : quiet (modify (set_endDisplay b)).
Proof. intro w. split; [reflexivity|]. exists []. split; reflexivity. Qed.

Lemma quiet_bind {A B} (m : M A) (k : A -> M B) :
  quiet m -> (forall a, quiet (k a)) -> quiet (bind m k).
Proof.
  intros Hm Hk w. rewrite bind_run.
  destruct (Hm w) as (Hl1 & evs1 & Ht1 & Hq1).
  destruct (m w) as [[a|x] w1]; cbn [fst snd] in *.
  - destruct (Hk a w1) as (Hl2 & evs2 & Ht2 & Hq2).
    split; [congruence|]. exists (evs2 ++ evs1)%list. split.
    + rewrite Ht2, Ht1, app_assoc. reflexivity.
    + unfold led_commands in *. rewrite filter_app, Hq1, Hq2. reflexivity.
  - split; [exact Hl1|]. exists evs1. auto.
Qed.

Lemma quiet_try {A} (m : M A) (h : Exn -> M A) :
  quiet m -> (forall x, quiet (h x)) -> quiet (try_except m h).
Proof.
  intros Hm Hh w. unfold try_except.
  destruct (Hm w) as (Hl1 & evs1 & Ht1 & Hq1).
  destruct (m w) as [[a|x] w1]; cbn [fst snd] in *.
  - split; [exact Hl1|]. exists evs1. auto.
  - destruct (Hh x w1) as (Hl2 & evs2 & Ht2 & Hq2).
    split; [congruence|]. exists (evs2 ++ evs1)%list. split.
    + rewrite Ht2, Ht1, app_assoc. reflexivity.
    + unfold led_commands in *. rewrite filter_app, Hq1, Hq2. reflexivity.
Qed.

Lemma quiet_if {A} (c : bool) (m1 m2 : M A) :
  quiet m1 -> quiet m2 -> quiet (if c then m1 else m2).
Proof. destruct c; auto. Qed.

Create HintDb quiet.
#[local] Hint Resolve quiet_ret quiet_gets quiet_debug quiet_print quiet_sleep
  quiet_clock quiet_sensor quiet_set_current_state quiet_set_setPoint
  quiet_set_endDisplay : quiet.
#[local] Hint Extern 1 (quiet (io _ _ _)) =>
  (apply quiet_io; reflexivity) : quiet.

Ltac quiet_step :=
  first
    [ solve [auto with quiet]
    | apply quiet_bind; [|intro]
    | apply quiet_try; [|intro]
    | apply quiet_if ].

Lemma quiet_updateScreen e msg : quiet (updateScreen e msg).
Proof. unfold updateScreen. repeat quiet_step. Qed.

Lemma quiet_cleanupDisplay e : quiet (cleanupDisplay e).
Proof. unfold cleanupDisplay. repeat quiet_step. Qed.

Lemma quiet_uart_step e cnt : quiet (uart_step e cnt).
Proof. unfold uart_step, setupSerialOutput. repeat quiet_step. Qed.

Lemma quiet_interrupt_signal : quiet interrupt_signal.
Proof. unfold interrupt_signal. repeat quiet_step. Qed.

Lemma quiet_interrupt_finish e : quiet (interrupt_finish e).
Proof. unfold interrupt_finish. repeat quiet_step. Qed.

#[local] Hint Resolve quiet_updateScreen quiet_cleanupDisplay quiet_uart_step
  : quiet.

(** One step of the walk through a computation: a quiet call, an LED
    command, a call already dealt with, or a sequence. *)
Ltac dark_prim :=
  first
    [ eapply triple_quiet; solve [auto with quiet]
    | eapply triple_led; reflexivity
    | solve [eauto with dark] ].

Ltac dark_step :=
  first
    [ dark_prim
    | eapply triple_any; dark_prim
    | eapply triple_from_any; dark_prim
    | eapply triple_bind; [|intro]
    | match goal with
      | |- led_triple _ (if ?c then _ else _) _ => destruct c
      | |- led_triple _ (match ?st with off => _ | _ => _ end) _ => destruct st
      end ].

Create HintDb dark.

Lemma triple_updateLights e :
  led_triple (sat AnyDark) (updateLights e) (sat AnyDark).
Proof. unfold updateLights. repeat dark_step. Qed.

#[local] Hint Resolve triple_updateLights : dark.

Lemma triple_on_exit e m :
  led_triple (sat AnyDark) (on_exit e m) (sat AnyDark).
Proof.
  destruct m; unfold on_exit, on_exit_heat, on_exit_cool; repeat dark_step.
Qed.

Lemma triple_on_enter e m :
  led_triple (sat AnyDark) (on_enter e m) (sat AnyDark).
Proof.
  destruct m; unfold on_enter, on_enter_off, on_enter_heat, on_enter_cool;
    repeat dark_step.
Qed.

#[local] Hint Resolve triple_on_exit triple_on_enter : dark.

Lemma triple_cycle e : led_triple (sat AnyDark) (cycle e) (sat AnyDark).
Proof.
  unfold cycle, fire. eapply triple_bind; [dark_prim | intro src].
  rewrite find_transition_cycle. repeat dark_step.
Qed.

#[local] Hint Resolve triple_cycle : dark.

Lemma triple_when_pressed e b :
  led_triple (sat AnyDark) (when_pressed e b) (sat AnyDark).
Proof.
  destruct b;
    unfold when_pressed, processTempStateButton, processTempIncButton,
      processTempDecButton;
    repeat dark_step.
Qed.

Lemma triple_line2_step e alt :
  led_triple (sat AnyDark) (line2_step e alt) (sat AnyDark).
Proof. unfold line2_step. repeat dark_step. Qed.

#[local] Hint Resolve triple_line2_step : dark.

Lemma triple_loop_body e l :
  led_triple (sat AnyDark) (loop_body e l) (sat AnyDark).
Proof. unfold loop_body. repeat dark_step. Qed.

#[local] Hint Resolve triple_loop_body : dark.

Lemma triple_loop e fuel :
  forall l, led_triple (sat AnyDark) (loop e fuel l) (sat AnyDark).
Proof.
  induction fuel as [|fuel IH]; intro l; rewrite loop_unfold.
  - repeat dark_step.
  - eapply triple_bind; [dark_prim | intro stop].
    destruct stop; [repeat dark_step|].
    eapply triple_bind; [dark_prim | intro l']. apply IH.
Qed.

#[local] Hint Resolve triple_loop : dark.

Lemma triple_manageMyDisplay e fuel :
  led_triple (sat AnyDark) (manageMyDisplay e fuel) (sat AnyDark).
Proof. unfold manageMyDisplay. repeat dark_step. Qed.

(** X8: within one callback or one refresh run taken on its own, the two
    LEDs are never lit together, not even between two commands.  From a
    store in which one LED is off, a button callback, or a run of the
    refresh thread, with no other thread acting in between, only sends LED
    commands after each of which one LED is off again, whichever calls raise
    on the way; the LEDs of the store are those commands replayed.  The
    source takes no lock, so this says nothing of the commands of a callback
    interleaved with those of the refresh thread. *)
Theorem leds_never_lit_together :
  forall e w,
    one_dark (lights w) = true ->
    (forall b,
        exists evs,
          trace (snd (when_pressed e b w)) = (evs ++ trace w)%list /\
          lights_at evs (lights w) = lights (snd (when_pressed e b w)) /\
          always_one_dark evs (lights w) = true) /\
    (forall fuel,
        exists evs,
          trace (snd (manageMyDisplay e fuel w)) = (evs ++ trace w)%list /\
          lights_at evs (lights w) = lights (snd (manageMyDisplay e fuel w)) /\
          always_one_dark evs (lights w) = true) /\
    (forall fuel l,
        exists evs,
          trace (snd (loop e fuel l w)) = (evs ++ trace w)%list /\
          lights_at evs (lights w) = lights (snd (loop e fuel l w)) /\
          always_one_dark evs (lights w) = true).
Proof.
  intros e w H. split; [|split].
  - intro b. destruct (triple_when_pressed e b w H) as (evs & H1 & H2 & H3 & _).
    exists evs. auto.
  - intro fuel.
    destruct (triple_manageMyDisplay e fuel w H) as (evs & H1 & H2 & H3 & _).
    exists evs. auto.
  - intros fuel l.
    destruct (triple_loop e fuel l w H) as (evs & H1 & H2 & H3 & _).
    exists evs. auto.
Qed.

Lemma leds_never_lit_together_witness :
  let w := set_light Red LedPulse (world_at heat 72) in
  exists evs,
    trace (snd (when_pressed (env_fault_at 12 80) greenButton w))
      = (evs ++ trace w)%list /\
    always_one_dark evs (lights w) = true.
Proof.
  intro w.
  destruct (proj1 (leds_never_lit_together (env_fault_at 12 80) w eq_refl)
              greenButton) as (evs & H1 & _ & H3).
  exists evs. auto.
Defined.


(** * A lit LED belongs to the mode, whatever fails *)

Lemma Obs_eqb_eq a b : Obs_eqb a b = true <-> a = b.
Proof.
  destruct a as [[] [[] []]], b as [[] [[] []]]; cbn;
    split; intro H; try reflexivity; discriminate H.
Qed.

Lemma inb_In P o : inb P o = true <-> In o P.
Proof.
  unfold inb. rewrite existsb_exists. split.
  - intros (x & Hx & E). apply Obs_eqb_eq in E. subst x. exact Hx.
  - intro H. exists o. split; [exact H | apply Obs_eqb_eq; reflexivity].
Qed.

Lemma subset_sound P Q o : subset P Q = true -> inb P o = true -> inb Q o = true.
Proof.
  unfold subset. rewrite forallb_forall. intros H HP.
  apply H, inb_In, HP.
Qed.

Lemma inb_map f P x : inb P x = true -> inb (map f P) (f x) = true.
Proof. rewrite !inb_In. apply in_map. Qed.

Lemma inb_belonging o : inb belonging o = lit_belongs o.
Proof. destruct o as [[] [[] []]]; reflexivity. Qed.

Lemma wt_bind {A B} P Q R E (m : M A) (k : A -> M B) :
  ends_in P m Q E ->
  (forall a, ends_in Q (k a) R E) ->
  ends_in P (bind m k) R E.
Proof.
  intros Hm Hk w HP. rewrite bind_run. specialize (Hm w HP).
  destruct (m w) as [[a|x] w1]; cbn [fst snd] in *.
  - apply Hk. exact Hm.
  - exact Hm.
Qed.

Lemma wt_post {A} P Q R E (m : M A) :
  ends_in P m Q E -> subset Q R = true -> ends_in P m R E.
Proof.
  intros H HS w HP. specialize (H w HP).
  destruct (fst (m w)); [|exact H]. exact (subset_sound Q R _ HS H).
Qed.

Lemma wt_pre {A} P P' Q E (m : M A) :
  subset P P' = true -> ends_in P' m Q E -> ends_in P m Q E.
Proof. intros HS H w HP. apply H. exact (subset_sound P P' _ HS HP). Qed.

Lemma wt_still {A} P E (m : M A) :
  quiet m -> keeps current_state m -> subset P E = true ->
  ends_in P m P E.
Proof.
  intros Hq Hk HS w HP.
  assert (Ho : obs (snd (m w)) = obs w).
  { unfold obs. rewrite Hk. rewrite (proj1 (Hq w)). reflexivity. }
  rewrite Ho. destruct (fst (m w)); [exact HP|].
  exact (subset_sound P E _ HS HP).
Qed.

Lemma wt_led e l c P Q E :
  map (fun o => (fst o, apply_led (EvLed l c) (snd o))) P = Q ->
  subset P E = true ->
  ends_in P (led e l c) Q E.
Proof.
  intros <- HS w HP. unfold led. exec.
  destruct (fault e Indicator (List.length (trace w))); cbn [fst snd].
  - exact (subset_sound P E _ HS HP).
  - apply (inb_map (fun o => (fst o, apply_led (EvLed l c) (snd o)))) in HP.
    destruct l; exact HP.
Qed.

Lemma wt_set_state m P Q E :
  map (fun o => (m, snd o)) P = Q ->
  ends_in P (modify (set_current_state m)) Q E.
Proof.
  intros <- w HP. cbn [modify fst snd].
  exact (inb_map (fun o => (m, snd o)) P (obs w) HP).
Qed.

Lemma wt_gets_state {B} P R E (k : Mode -> M B) :
  (forall a,
      ends_in (filter (fun o => Mode_eqb (fst o) a) P) (k a) R E) ->
  ends_in P (bind (gets current_state) k) R E.
Proof.
  intros H w HP. rewrite bind_run. cbn [gets].
  apply H. apply inb_In, filter_In. split; [apply inb_In; exact HP|].
  cbn [obs fst]. destruct (current_state w); reflexivity.
Qed.

Lemma keeps_current_state_set_setPoint z :
  keeps current_state (modify (set_setPoint z)).
Proof. intro w. reflexivity. Qed.

#[local] Hint Resolve keeps_current_state_set_setPoint : frame.

Ltac obs_side := vm_compute; reflexivity.

Create HintDb belongs.

Ltac obs_prim :=
  first
    [ eapply wt_led; [obs_side | obs_side]
    | eapply wt_set_state; obs_side
    | eapply wt_still;
        [solve [auto with quiet] | solve [auto with frame] | obs_side]
    | eapply wt_pre; [|solve [eauto with belongs]]; obs_side ].

Ltac obs_step :=
  first
    [ match goal with
      | |- ends_in _ (bind (if ?c then _ else _) _) _ _ => destruct c
      | |- ends_in _ (if ?c then _ else _) _ _ => destruct c
      | |- ends_in _ (match ?st with off => _ | _ => _ end) _ _ => destruct st
      | |- ends_in _ (bind (gets current_state) _) _ _ =>
          eapply wt_gets_state; intros []
      end
    | obs_prim
    | eapply wt_post; [obs_prim | obs_side]
    | eapply wt_bind; [|intro] ].

Lemma belongs_updateLights e :
  ends_in belonging (updateLights e) belonging belonging.
Proof. unfold updateLights. repeat obs_step. Qed.

#[local] Hint Resolve belongs_updateLights : belongs.

Lemma belongs_setpoint_button e b :
  b <> greenButton ->
  ends_in belonging (when_pressed e b) belonging belonging.
Proof.
  intro Hb. destruct b; [exfalso; apply Hb; reflexivity | |];
    unfold when_pressed, processTempIncButton, processTempDecButton;
    repeat obs_step.
Qed.

Lemma belongs_line2_step e alt :
  ends_in belonging (line2_step e alt) belonging belonging.
Proof. unfold line2_step. repeat obs_step. Qed.

#[local] Hint Resolve belongs_line2_step : belongs.

Lemma belongs_loop_body e l :
  ends_in belonging (loop_body e l) belonging belonging.
Proof. unfold loop_body. repeat obs_step. Qed.

#[local] Hint Resolve belongs_loop_body : belongs.

Lemma belongs_loop e fuel :
  forall l, ends_in belonging (loop e fuel l) belonging belonging.
Proof.
  induction fuel as [|fuel IH]; intro l; rewrite loop_unfold.
  - repeat obs_step.
  - eapply wt_bind; [obs_prim | intro stop].
    destruct stop; [repeat obs_step|].
    eapply wt_bind; [obs_prim | intro l']. apply IH.
Qed.

#[local] Hint Resolve belongs_loop : belongs.

Lemma belongs_manageMyDisplay e fuel :
  ends_in belonging (manageMyDisplay e fuel) belonging belonging.
Proof. unfold manageMyDisplay. repeat obs_step. Qed.

Lemma ends_in_belongs {A} (m : M A) w :
  ends_in belonging m belonging belonging ->
  lit_belongs (obs w) = true ->
  lit_belongs (obs (snd (m w))) = true.
Proof.
  intros H Hw. rewrite <- inb_belonging in Hw |- *.
  specialize (H w Hw). destruct (fst (m w)); exact H.
Qed.

(** X12: a lit LED belongs to the mode, whatever fails.  Take a set point
    press, a sequence of them, or a run of the refresh thread on its own,
    with no other thread acting in between.  If the red LED is lit only in
    Heat and the blue one only in Cool before, this is still so after,
    whether the run returns or is cut short by a call that raises. *)
Theorem lit_led_belongs_to_mode :
  forall e w,
    lit_belongs (obs w) = true ->
    (forall b,
        b <> greenButton ->
        lit_belongs (obs (snd (when_pressed e b w))) = true) /\
    (forall bs,
        ~ In greenButton bs ->
        lit_belongs (obs (press_all e bs w)) = true) /\
    (forall fuel, lit_belongs (obs (snd (manageMyDisplay e fuel w))) = true) /\
    (forall fuel l, lit_belongs (obs (snd (loop e fuel l w))) = true).
Proof.
  intros e w Hw. split; [|split; [|split]].
  - intros b Hb.
    exact (ends_in_belongs _ w (belongs_setpoint_button e b Hb) Hw).
  - intro bs. revert w Hw. induction bs as [|b bs IH]; intros w Hw Hn.
    + exact Hw.
    + rewrite press_all_cons. apply IH.
      * apply (ends_in_belongs _ w (belongs_setpoint_button e b
                 (fun E => Hn (or_introl E))) Hw).
      * intro Hin. apply Hn. right. exact Hin.
  - intro fuel. exact (ends_in_belongs _ w (belongs_manageMyDisplay e fuel) Hw).
  - intros fuel l. exact (ends_in_belongs _ w (belongs_loop e fuel l) Hw).
Qed.

Lemma lit_led_belongs_to_mode_witness :
  let w := set_light Red LedPulse (world_at heat 72) in
  (fst (when_pressed (env_fault_at 3 80) redButton w)
     = Raise (Exc Indicator "I/O error") /\
   lit_belongs (obs (snd (when_pressed (env_fault_at 3 80) redButton w)))
     = true) /\
  (fst (manageMyDisplay (env_fault_at 75 80) 12 w)
     = Raise (Exc Indicator "I/O error") /\
   lit_belongs (obs (snd (manageMyDisplay (env_fault_at 75 80) 12 w)))
     = true).
Proof.
  intro w. split; (split; [vm_compute; reflexivity|]).
  - apply (proj1 (lit_led_belongs_to_mode (env_fault_at 3 80) w eq_refl)).
    discriminate.
  - apply (proj1 (proj2 (proj2
             (lit_led_belongs_to_mode (env_fault_at 75 80) w eq_refl)))).
Defined.

(** ** Who writes what *)

Lemma keeps_machine_loop e fuel :
  forall l, keeps machine (loop e fuel l).
Proof.
  induction fuel as [|fuel IH]; intro l; rewrite loop_unfold;
    (apply keeps_bind; [apply keeps_gets | intro stop]);
    destruct stop; repeat frame_step.
Qed.

Lemma keeps_endDisplay_press e b : keeps endDisplay (when_pressed e b).
Proof.
  destruct b; cbn [when_pressed].
  - unfold processTempStateButton, cycle, fire.
    apply keeps_bind; [apply keeps_debug, passive_endDisplay | intros _].
    apply keeps_bind;
      [|intros _; apply keeps_updateLights, passive_endDisplay].
    apply keeps_bind; [apply keeps_gets | intro src].
    rewrite find_transition_cycle.
    apply keeps_bind; [apply keeps_on_exit, passive_endDisplay | intros _].
    apply keeps_bind; [intro w; reflexivity | intros _].
    apply keeps_on_enter, passive_endDisplay.
  - intro w. rewrite inc_world,
      (keeps_updateLights endDisplay e passive_endDisplay). reflexivity.
  - intro w. rewrite dec_world,
      (keeps_updateLights endDisplay e passive_endDisplay). reflexivity.
Qed.

(** X13: who writes what.  The refresh thread only reads the attributes of
    the machine: mode, set point and shutdown flag are after any run of it
    what they were before, whatever fails; and no button press touches the
    shutdown flag. *)
Theorem refresh_thread_only_reads_machine :
  forall e w,
    (forall fuel, machine (snd (manageMyDisplay e fuel w)) = machine w) /\
    (forall fuel l, machine (snd (loop e fuel l w)) = machine w) /\
    (forall bs, endDisplay (press_all e bs w) = endDisplay w).
Proof.
  intros e w. split; [|split].
  - intro fuel. revert w. change (keeps machine (manageMyDisplay e fuel)).
    unfold manageMyDisplay. apply keeps_bind.
    + apply keeps_updateLights, passive_machine.
    + intros _. apply keeps_machine_loop.
  - intros fuel l. apply keeps_machine_loop.
  - intro bs. revert w. induction bs as [|b bs IH]; intro w.
    + reflexivity.
    + rewrite press_all_cons, IH. apply keeps_endDisplay_press.
Qed.

(** * Properties of the serial light server *)

Module LightServerFacts.

Import LightServer.

(** ** How the loop ends *)

Lemma serve_stopped normalise inputs s :
  repeat s = false -> serve normalise inputs s = (Stopped, s).
Proof. intro H. destruct inputs; cbn [serve]; rewrite H; reflexivity. Qed.

Lemma serve_cons normalise i rest s :
  repeat s = true ->
  serve normalise (i :: rest) s =
  match pass normalise i s with
  | Some s' => serve normalise rest s'
  | None => (Crashed, s)
  end.
Proof. intro H. cbn [serve]. rewrite H. reflexivity. Qed.






(** ** What the light shows while the server runs *)

Lemma asked_level_cons normalise i rest level :
  asked_level normalise (i :: rest) level =
  asked_level normalise rest (asked_level normalise [i] level).
Proof. reflexivity. Qed.

Lemma pass_level normalise i s s' :
  pass normalise i s = Some s' ->
  repeat s' = true ->
  repeat s = true ->
  pin18 s' = asked_level normalise [i] (pin18 s).
Proof.
  destruct i as [raw| |]; cbn [pass asked_level fold_left];
    [| intro H; injection H as <-; discriminate | discriminate].
  destruct (normalise raw =? "")%string eqn:E0.
  - apply String.eqb_eq in E0. rewrite E0. cbn.
    intro H. injection H as <-. reflexivity.
  - unfold dispatch.
    destruct (normalise raw =? "off")%string eqn:Eoff.
    + apply String.eqb_eq in Eoff. rewrite Eoff. cbn.
      intro H. injection H as <-. reflexivity.
    + destruct (normalise raw =? "on")%string eqn:Eon.
      * intro H. injection H as <-. reflexivity.
      * destruct ((normalise raw =? "exit") || (normalise raw =? "quit"))%string;
          intro H; injection H as <-; [discriminate | reflexivity].
Qed.

(** X10: while the server is still in its loop, line 18 is at the level of
    the last [on] or [off] received, or where it started if there was none:
    blank lines, timeouts and unknown commands change nothing. *)
Theorem light_follows_last_switch :
  forall normalise inputs s,
    fst (serve normalise inputs s) = Waiting ->
    pin18 (snd (serve normalise inputs s)) =
      asked_level normalise inputs (pin18 s).
Proof.
  intros normalise inputs. induction inputs as [|i rest IH]; intros s H.
  - cbn [serve] in *. destruct (repeat s); reflexivity.
  - destruct (repeat s) eqn:Hr;
      [|rewrite serve_stopped in H by exact Hr; discriminate H].
    rewrite serve_cons in H |- * by exact Hr.
    destruct (pass normalise i s) as [s1|] eqn:Hp; [|discriminate H].
    destruct (repeat s1) eqn:Hr1;
      [|rewrite serve_stopped in H by exact Hr1; discriminate H].
    rewrite (IH s1 H), asked_level_cons.
    rewrite (pass_level normalise i s s1 Hp Hr1 Hr). reflexivity.
Qed.

Lemma light_follows_last_switch_witness :
  pin18 (snd (serve normalise_ascii
                [Line "on"; Line ""; Line "blink"; Line "OFF"; Line "On"]
                (started false))) = true.
Proof.
  exact (light_follows_last_switch normalise_ascii
           [Line "on"; Line ""; Line "blink"; Line "OFF"; Line "On"]
           (started false) eq_refl).
Defined.

(** ** Letter case and white space around a command *)

Lemma lower_append a b : lower (a ++ b) = lower a ++ lower b.
Proof. induction a as [|c a IH]; cbn; [reflexivity | now rewrite IH]. Qed.

Lemma is_ascii_append a b : is_ascii (a ++ b) = is_ascii a && is_ascii b.
Proof.
  induction a as [|c a IH]; cbn [append is_ascii]; [reflexivity|].
  rewrite IH, andb_assoc. reflexivity.
Qed.

Lemma space_char c :
  Py.is_space c = true ->
  lower_ascii c = c /\ Nat.ltb (nat_of_ascii c) 128 = true.
Proof.
  destruct c as [[] [] [] [] [] [] [] []]; intro H;
    try discriminate H; split; reflexivity.
Qed.

Lemma lower_space ws : all_space ws = true -> lower ws = ws.
Proof.
  induction ws as [|c ws IH]; cbn [all_space lower]; [reflexivity|].
  intro H. apply andb_prop in H. destruct H as [Hc Hw].
  rewrite (proj1 (space_char c Hc)), (IH Hw). reflexivity.
Qed.

Lemma is_ascii_space ws : all_space ws = true -> is_ascii ws = true.
Proof.
  induction ws as [|c ws IH]; cbn [all_space is_ascii]; [reflexivity|].
  intro H. apply andb_prop in H. destruct H as [Hc Hw].
  rewrite (proj2 (space_char c Hc)), (IH Hw). reflexivity.
Qed.

Lemma is_ascii_lower s : is_ascii (lower s) = is_ascii s.
Proof.
  induction s as [|c s IH]; cbn [lower is_ascii]; [reflexivity|].
  rewrite IH. f_equal.
  destruct c as [[] [] [] [] [] [] [] []]; reflexivity.
Qed.

Lemma lstrip_space ws x : all_space ws = true -> Py.lstrip (ws ++ x) = Py.lstrip x.
Proof.
  induction ws as [|c ws IH]; cbn [all_space append]; [reflexivity|].
  intro H. apply andb_prop in H. destruct H as [Hc Hw].
  cbn [Py.lstrip]. rewrite Hc. apply IH. exact Hw.
Qed.

Lemma rstrip_all_space ws : all_space ws = true -> Py.rstrip ws = "".
Proof.
  induction ws as [|c ws IH]; cbn [all_space Py.rstrip]; [reflexivity|].
  intro H. apply andb_prop in H. destruct H as [Hc Hw].
  rewrite (IH Hw), Hc. reflexivity.
Qed.

Lemma rstrip_space x ws :
  all_space ws = true -> Py.rstrip (x ++ ws) = Py.rstrip x.
Proof.
  intro H. induction x as [|c x IH]; cbn [append Py.rstrip].
  - apply rstrip_all_space. exact H.
  - rewrite IH. reflexivity.
Qed.

Lemma lstrip_all_space ws : all_space ws = true -> Py.lstrip ws = "".
Proof.
  induction ws as [|c ws IH]; cbn [all_space Py.lstrip]; [reflexivity|].
  intro H. apply andb_prop in H. destruct H as [Hc Hw].
  rewrite Hc. apply IH. exact Hw.
Qed.

Lemma strip_pad ws1 x ws2 :
  all_space ws1 = true ->
  all_space ws2 = true ->
  Py.strip (ws1 ++ x ++ ws2) = Py.strip x.
Proof.
  intros H1 H2. unfold Py.strip. rewrite lstrip_space by exact H1.
  induction x as [|c x IH]; cbn [append].
  - rewrite lstrip_all_space by exact H2. reflexivity.
  - cbn [Py.lstrip]. destruct (Py.is_space c); [exact IH|].
    apply (rstrip_space (String c x) ws2 H2).
Qed.

Lemma normalise_padded normalise ws1 s ws2 :
  python_normalise normalise ->
  all_space ws1 = true ->
  all_space ws2 = true ->
  is_ascii s = true ->
  normalise (ws1 ++ s ++ ws2) = Py.strip (lower s).
Proof.
  intros Hn H1 H2 Hs. rewrite Hn.
  - unfold normalise_ascii. rewrite !lower_append.
    rewrite (lower_space ws1 H1), (lower_space ws2 H2).
    apply strip_pad; assumption.
  - rewrite !is_ascii_append, Hs.
    rewrite (is_ascii_space ws1 H1), (is_ascii_space ws2 H2). reflexivity.
Qed.

(** X11: letter case and white space around a command do not matter.  For a
    line of ASCII bytes made of white space, a text [s] and white space
    again, the server acts on [s] in lower case: any spelling of [on] writes
    HIGH to line 18, any spelling of [off] writes LOW, any spelling of
    [exit] or [quit] writes LOW, releases the GPIO lines and ends the loop,
    and a line of white space alone does nothing. *)
Theorem commands_ignore_case_and_blanks :
  forall normalise ws1 s ws2 st,
    python_normalise normalise ->
    all_space ws1 = true ->
    all_space ws2 = true ->
    is_ascii s = true ->
    (lower s = "on" ->
     pass normalise (Line (ws1 ++ s ++ ws2)) st = Some (output true st)) /\
    (lower s = "off" ->
     pass normalise (Line (ws1 ++ s ++ ws2)) st = Some (output false st)) /\
    (lower s = "exit" \/ lower s = "quit" ->
     pass normalise (Line (ws1 ++ s ++ ws2)) st =
       Some (set_repeat false (cleanup (output false st)))) /\
    (s = "" -> pass normalise (Line (ws1 ++ s ++ ws2)) st = Some st).
Proof.
  intros normalise ws1 s ws2 st Hn H1 H2 Hs.
  cbn [pass]. rewrite (normalise_padded normalise ws1 s ws2 Hn H1 H2 Hs).
  split; [|split; [|split]].
  - intros ->. reflexivity.
  - intros ->. reflexivity.
  - intros [-> | ->]; reflexivity.
  - intros ->. reflexivity.
Qed.

Lemma commands_ignore_case_and_blanks_witness :
  pass normalise_ascii (Line ("  " ++ "oN" ++ newline)) (started false)
    = Some (output true (started false)) /\
  pass normalise_ascii (Line (" " ++ "QUIT" ++ " ")) (started true)
    = Some (set_repeat false (cleanup (output false (started true)))).
Proof.
  split.
  - apply (proj1 (commands_ignore_case_and_blanks normalise_ascii
                    "  " "oN" newline (started false)
                    (fun _ _ => eq_refl) eq_refl eq_refl eq_refl)).
    reflexivity.
  - apply (proj1 (proj2 (proj2
             (commands_ignore_case_and_blanks normalise_ascii
                " " "QUIT" " " (started true)
                (fun _ _ => eq_refl) eq_refl eq_refl eq_refl)))).
    right. reflexivity.
Defined.

End LightServerFacts.
